(** * zero-trust-lunch: the lunch-order pipeline

    A shallow embedding of the four pipeline steps of the backend
    (employee, HR, finance, manager) and of the policy rules of the HR
    step, together with the properties the specification states about
    them.

    Conventions of the embedding.
    - A JavaScript string is a [string]: a sequence of 8-bit characters.
      [toLowerCase] and [trim] are the ASCII parts of the JavaScript
      built-ins (letters A..Z, the six ASCII white-space characters);
      the keyword lists of the policy are ASCII.
    - An [Array] is a [list]; a [Set] is the list of its elements in
      insertion order.
    - A call into the Azure SDK either returns or throws; the replies of
      the outside world are collected in a [World] record, so that the
      asynchronous HR step becomes a function of that record.
    - A JavaScript number is [NaN] or an exact rational; rounding and
      overflow of IEEE doubles are not modelled.
    - The route of the server, the form of the user interface and the
      version of the HR step without a polling ceiling follow the steps;
      a loop without a bound of its own takes a [fuel] and returns [None]
      while it is still running. *)

From Stdlib Require Import String Ascii List Bool Arith ZArith QArith Qcanon Lia.
From stdpp Require Import base list strings.

Open Scope string_scope.
Open Scope list_scope.

(** ** JavaScript built-ins used by the steps *)

Module JS.

(** [String.prototype.toLowerCase], on ASCII letters. *)
Definition toLowerCaseChar (c : ascii) : ascii :=
  let n := nat_of_ascii c in
  if (65 <=? n)%nat && (n <=? 90)%nat then ascii_of_nat (n + 32) else c.

Fixpoint toLowerCase (s : string) : string :=
  match s with
  | EmptyString => EmptyString
  | String c s' => String (toLowerCaseChar c) (toLowerCase s')
  end.

(** [s.includes(needle)]: [needle] occurs in [s] as a substring. *)
Fixpoint includes (s needle : string) : bool :=
  String.prefix needle s ||
  match s with
  | EmptyString => false
  | String _ s' => includes s' needle
  end.

(** White space removed by [String.prototype.trim]: TAB, LF, VT, FF, CR
    and the space. *)
Definition isWhiteSpace (c : ascii) : bool :=
  let n := nat_of_ascii c in
  ((9 <=? n)%nat && (n <=? 13)%nat) || (n =? 32)%nat.

Definition isEmpty (s : string) : bool :=
  match s with EmptyString => true | String _ _ => false end.

Fixpoint trimStart (s : string) : string :=
  match s with
  | EmptyString => EmptyString
  | String c s' => if isWhiteSpace c then trimStart s' else s
  end.

Fixpoint trimEnd (s : string) : string :=
  match s with
  | EmptyString => EmptyString
  | String c s' =>
      let t := trimEnd s' in
      if isWhiteSpace c && isEmpty t then EmptyString else String c t
  end.

Definition trim (s : string) : string := trimEnd (trimStart s).

(** [arr.join(sep)]. *)
Fixpoint join (sep : string) (arr : list string) : string :=
  match arr with
  | [] => ""
  | [x] => x
  | x :: rest => x +:+ sep +:+ join sep rest
  end.

(** [arr.some(p)]. *)
Definition some {A} (p : A -> bool) (arr : list A) : bool := existsb p arr.

(** A [Set] of strings keeps its elements in insertion order; adding an
    element that is already there changes nothing. *)
Definition SetOf := list string.

Definition has (s : SetOf) (x : string) : bool :=
  existsb (String.eqb x) s.

Definition add (s : SetOf) (x : string) : SetOf :=
  if has s x then s else s ++ [x].

(** [new Set(arr)] inserts the elements of [arr] from left to right. *)
Definition newSet (arr : list string) : SetOf := fold_left add arr [].

(** [Array.from(set)] and [[...set]]. *)
Definition arrayFrom (s : SetOf) : list string := s.

(** [Array.prototype.filter] with a callback that updates a state (here:
    pushes onto an array captured by the closure).  The callback is
    called once per element, from left to right. *)
Fixpoint filterWith {A S} (cb : A -> S -> bool * S) (arr : list A) (st : S)
  : list A * S :=
  match arr with
  | [] => ([], st)
  | x :: rest =>
      let '(keep, st1) := cb x st in
      let '(kept, st2) := filterWith cb rest st1 in
      (if keep then x :: kept else kept, st2)
  end.

(** Number of matches of a global regular expression that is an
    alternation of literal words, as in [text.match(/a|b|c/g)]: at each
    position the alternatives are tried in order; after a match the scan
    resumes behind it, otherwise one character further. [skip] counts the
    characters still covered by the last match. *)
Fixpoint firstPrefix (words : list string) (s : string) : option string :=
  match words with
  | [] => None
  | w :: ws => if String.prefix w s then Some w else firstPrefix ws s
  end.

Fixpoint countMatchesFrom (words : list string) (skip : nat) (s : string) : nat :=
  match s with
  | EmptyString => 0
  | String _ s' =>
      match skip with
      | S k => countMatchesFrom words k s'
      | O =>
          match firstPrefix words s with
          | Some w => S (countMatchesFrom words (String.length w - 1) s')
          | None => countMatchesFrom words 0 s'
          end
      end
  end.

Definition countMatches (words : list string) (s : string) : nat :=
  countMatchesFrom words 0 s.

End JS.

(** ** types.ts *)

Inductive RiskLevel := low | medium | high.

Record PipelineInput := {
  employees : list string;
  lunchMenu : list string
}.

Record EmployeeStepResult := {
  normalizedEmployees : list string
}.

Record HRStepResult := {
  sanitizedMenu : list string;
  riskLevel : RiskLevel;
  reasons : list string;
  threadId : option string;
  runId : option string
}.

(** ** steps/hr.ts: the policy rules *)

Definition containsTobacco (item : string) : bool :=
  let itemLower := JS.toLowerCase item in
  let tobaccoKeywords := ["tobacco"; "cigarette"; "cigar"; "vape"; "smoking"; "nicotine"] in
  JS.some (fun keyword => JS.includes itemLower keyword) tobaccoKeywords.

Definition containsHardLiquor (item : string) : bool :=
  let itemLower := JS.toLowerCase item in
  let hardLiquors := ["vodka"; "whiskey"; "rum"; "gin"; "tequila"; "brandy";
                      "cognac"; "bourbon"; "scotch"; "liqueur"] in
  JS.some (fun liquor => JS.includes itemLower liquor) hardLiquors.

Definition containsAllowedAlcohol (item : string) : bool :=
  let itemLower := JS.toLowerCase item in
  let allowedAlcohol := ["beer"; "wine"; "champagne"; "sparkling wine";
                         "prosecco"; "lager"; "ale"] in
  JS.some (fun alcohol => JS.includes itemLower alcohol) allowedAlcohol.

Definition containsMajorAllergens (item : string) : bool :=
  let itemLower := JS.toLowerCase item in
  let majorAllergens := ["peanut"; "shellfish"; "tree nut"] in
  JS.some (fun allergen => JS.includes itemLower allergen) majorAllergens.

Record Inclusivity := {
  hasVegetarian : bool;
  isPorkHeavy : bool
}.

(** [porkCount > totalItems * 0.5] compares an integer with half an
    integer; both sides are exact, so the test is [totalItems < 2 * porkCount]. *)
Definition checkInclusivity (menu : list string) : Inclusivity :=
  let menuText := JS.toLowerCase (JS.join " " menu) in
  let hasVegetarian :=
    JS.includes menuText "vegetarian" || JS.includes menuText "vegan" ||
    JS.includes menuText "salad" || JS.includes menuText "veggie" in
  let porkCount := JS.countMatches ["pork"; "bacon"; "ham"; "sausage"] menuText in
  let totalItems := length menu in
  let isPorkHeavy := (totalItems <? 2 * porkCount)%nat in
  {| hasVegetarian := hasVegetarian; isPorkHeavy := isPorkHeavy |}.

Definition parseRiskLevel (response : string) : RiskLevel :=
  let responseLower := JS.toLowerCase response in
  if JS.includes responseLower "tobacco" || JS.includes responseLower "hard liquor" ||
     JS.includes responseLower "peanut" || JS.includes responseLower "shellfish" ||
     JS.includes responseLower "high risk" || JS.includes responseLower "dangerous"
  then high
  else if JS.includes responseLower "medium risk" || JS.includes responseLower "moderate" ||
          JS.includes responseLower "inclusivity" ||
          JS.includes responseLower "dietary restriction" ||
          JS.includes responseLower "allergen"
  then medium
  else low.

(** [reasons.push(r)] when [cond] holds. *)
Definition pushIf (cond : bool) (r : string) (reasons : list string) : list string :=
  if cond then reasons ++ [r] else reasons.

Definition extractRiskReasons (response : string) : list string :=
  let responseLower := JS.toLowerCase response in
  let inc := JS.includes responseLower in
  let reasons := [] in
  let reasons :=
    pushIf (inc "tobacco" || inc "cigarette" || inc "cigar" || inc "vape" || inc "smoking")
      "🚫 Contains tobacco products (cigars, cigarettes, vapes) - not allowed" reasons in
  let reasons :=
    pushIf (inc "vodka" || inc "whiskey" || inc "rum" || inc "tequila" ||
            inc "gin" || inc "brandy" || inc "liqueur" || inc "hard liquor")
      "🍷 Contains hard liquor - not allowed (beer, wine, champagne are permitted)" reasons in
  let reasons :=
    pushIf (inc "peanut" || inc "tree nut")
      "⚠️ Contains nuts/peanuts - major allergen risk" reasons in
  let reasons :=
    pushIf (inc "shellfish")
      "⚠️ Contains shellfish - major allergen risk" reasons in
  let reasons :=
    pushIf (inc "gluten" && negb (inc "gluten-free"))
      "⚠️ Contains gluten - dietary restriction concern" reasons in
  let reasons :=
    pushIf (inc "dairy" || inc "lactose")
      "⚠️ Contains dairy/lactose - dietary restriction concern" reasons in
  let reasons :=
    pushIf (inc "soy")
      "⚠️ Contains soy - allergen concern" reasons in
  let reasons :=
    pushIf (inc "egg")
      "Contains eggs - allergen concern" reasons in
  let reasons :=
    pushIf (inc "pork" && inc "only")
      "🫶 Menu may exclude religious dietary restrictions (pork-heavy)" reasons in
  let reasons :=
    pushIf (negb (inc "vegetarian") && negb (inc "vegan"))
      "🫶 No vegetarian/vegan options identified - inclusivity concern" reasons in
  reasons.

(** The callback of the [filter] in [sanitizeMenuBasedOnPolicy]; the state
    is the [violations] array of the enclosing function. *)
Definition sanitizeItem (item : string) (violations : list string)
  : bool * list string :=
  if containsTobacco item then
    (false, violations ++ ["🚫 Tobacco product removed: " +:+ item])
  else if containsHardLiquor item then
    (false, violations ++ ["🍷 Hard liquor removed: " +:+ item])
  else if containsMajorAllergens item then
    (false, violations ++ ["⚠️ Major allergen removed: " +:+ item])
  else
    (true, violations).

(** Returns the pair [(sanitizedMenu, violations)]. *)
Definition sanitizeMenuBasedOnPolicy (menu : list string)
  : list string * list string :=
  let violations := [] in
  JS.filterWith sanitizeItem menu violations.

Definition validateInclusivity (menu : list string) : list string :=
  let issues := [] in
  let inclusivity := checkInclusivity menu in
  let issues :=
    pushIf (negb (hasVegetarian inclusivity))
      "🫶 No vegetarian/vegan options available - consider adding plant-based choices"
      issues in
  let issues :=
    pushIf (isPorkHeavy inclusivity)
      "🫶 Menu is pork-heavy - may exclude religious dietary restrictions"
      issues in
  issues.

Definition compliantReason : string := "✅ Menu complies with company policy".

(** [uniqueReasons.length > 0 ? uniqueReasons : [compliantReason]] *)
Definition orCompliant (uniqueReasons : list string) : list string :=
  if (0 <? length uniqueReasons)%nat then uniqueReasons else [compliantReason].

Definition fallbackHRStep (input : PipelineInput) : HRStepResult :=
  let '(sanitizedMenu, violations) := sanitizeMenuBasedOnPolicy (lunchMenu input) in
  let inclusivityIssues := validateInclusivity sanitizedMenu in
  let hasTobacco := JS.some containsTobacco (lunchMenu input) in
  let hasHardLiquor := JS.some containsHardLiquor (lunchMenu input) in
  let hasMajorAllergens := JS.some containsMajorAllergens (lunchMenu input) in
  let riskLevel :=
    if hasTobacco || hasMajorAllergens then high
    else if hasHardLiquor || (0 <? length inclusivityIssues)%nat then medium
    else low in
  let allReasons := violations ++ inclusivityIssues in
  let uniqueReasons := JS.arrayFrom (JS.newSet allReasons) in
  {| sanitizedMenu := sanitizedMenu;
     riskLevel := riskLevel;
     reasons := orCompliant uniqueReasons;
     threadId := None;
     runId := None |}.

(** *** The outside world of [hrStep]

    Every awaited call either returns a value or throws. *)

Inductive Outcome (A : Type) : Type :=
| Returned (a : A)
| Thrown.
Arguments Returned {A} a.
Arguments Thrown {A}.

Definition bind {A B} (m : Outcome A) (k : A -> Outcome B) : Outcome B :=
  match m with
  | Returned a => k a
  | Thrown => Thrown
  end.

Notation "'let*' x ':=' m 'in' k" := (bind m (fun x => k))
  (at level 10, x pattern, m at level 100, k at level 200, only parsing).

(** The [status] of a run, as typed by the SDK. *)
Inductive RunStatus :=
| queued | in_progress | requires_action | cancelling
| cancelled | failed | completed | expired.

(** One entry of [message.content]: a text entry has the key [text] with a
    [value]; any other kind of entry (an image, say) has not. *)
Inductive MessageContent :=
| TextContent (value : string)
| OtherContent.

Record ThreadMessage := {
  role : string;
  content : list MessageContent
}.

Record World := {
  (** [process.env.AZURE_AI_PROJECT_ENDPOINT], [None] when unset *)
  AZURE_AI_PROJECT_ENDPOINT : option string;
  (** [process.env.AZURE_AI_AGENT_ID] *)
  AZURE_AI_AGENT_ID : option string;
  (** [new DefaultAzureCredential()] *)
  newDefaultAzureCredential : Outcome unit;
  (** [credential.getToken(scope)]: the token of the response, [None] for a
      response without one *)
  getToken : Outcome (option string);
  (** [new AIProjectClient(endpoint, credential)] *)
  newAIProjectClient : Outcome unit;
  (** [client.agents.threads.create()]: the [id] of the thread *)
  threads_create : Outcome string;
  (** [client.agents.messages.create(thread.id, 'user', prompt)] *)
  messages_create : Outcome unit;
  (** [client.agents.runs.create(thread.id, agentId)]: the [id] of the run *)
  runs_create : Outcome string;
  (** the [k]-th call, from 0, of [client.agents.runs.get(thread.id, run.id)] *)
  runs_get : nat -> Outcome RunStatus;
  (** the messages [client.agents.messages.list(thread.id)] iterates over *)
  messages_list : Outcome (list ThreadMessage)
}.

(** JavaScript truthiness of a string that may be [undefined]. *)
Definition truthy (v : option string) : bool :=
  match v with
  | Some s => negb (JS.isEmpty s)
  | None => false
  end.

Definition validateAzureCredentials (w : World) : bool :=
  match getToken w with
  | Returned token => truthy token
  | Thrown => false
  end.

Definition maxAttempts : nat := 60.

Definition isPending (status : RunStatus) : bool :=
  match status with
  | in_progress | queued => true
  | _ => false
  end.

(** The polling loop: [fuel] bounds the number of iterations; the loop
    leaves by its own condition after at most [maxAttempts] of them. *)
Fixpoint pollLoop (w : World) (fuel : nat) (runStatus : RunStatus) (attempts : nat)
  : Outcome (RunStatus * nat) :=
  match fuel with
  | O => Returned (runStatus, attempts)
  | S fuel' =>
      if isPending runStatus && (attempts <? maxAttempts)%nat then
        let* runStatus' := runs_get w (S attempts) in
        pollLoop w fuel' runStatus' (S attempts)
      else Returned (runStatus, attempts)
  end.

(** The result built at the end of the [try] block from the text of the
    assistant's answer. *)
Definition advisoryResult (input : PipelineInput) (response thread_id run_id : string)
  : HRStepResult :=
  let riskLevel := parseRiskLevel response in
  let aiReasons := extractRiskReasons response in
  let '(sanitizedMenu, violations) := sanitizeMenuBasedOnPolicy (lunchMenu input) in
  let inclusivityIssues := validateInclusivity sanitizedMenu in
  let allReasons := aiReasons ++ violations ++ inclusivityIssues in
  let uniqueReasons := JS.arrayFrom (JS.newSet allReasons) in
  {| sanitizedMenu := sanitizedMenu;
     riskLevel := riskLevel;
     reasons := orCompliant uniqueReasons;
     threadId := Some thread_id;
     runId := Some run_id |}.

(** [assistantMessages[0]?.content?.[0]], then
    ['text' in textContent ? textContent.text.value : '']. *)
Definition responseText (assistantMessages : list ThreadMessage) : string :=
  match assistantMessages with
  | m :: _ =>
      match content m with
      | TextContent value :: _ => value
      | _ => ""
      end
  | [] => ""
  end.

(** The body of the [try] block; [Returned r] is [return r], [Thrown] an
    exception that reaches the [catch]. *)
Definition hrStepTry (w : World) (input : PipelineInput) : Outcome HRStepResult :=
  let endpoint := AZURE_AI_PROJECT_ENDPOINT w in
  let agentId := AZURE_AI_AGENT_ID w in
  if negb (truthy endpoint) || negb (truthy agentId) then
    Returned (fallbackHRStep input)
  else
  let* _ := newDefaultAzureCredential w in
  let isValidCredential := validateAzureCredentials w in
  if negb isValidCredential then Returned (fallbackHRStep input) else
  let* _ := newAIProjectClient w in
  let* thread_id := threads_create w in
  let* _ := messages_create w in
  let* run_id := runs_create w in
  let* runStatus := runs_get w 0 in
  let* (runStatus, attempts) := pollLoop w maxAttempts runStatus 0 in
  if (maxAttempts <=? attempts)%nat then Returned (fallbackHRStep input) else
  if match runStatus with failed | cancelled => true | _ => false end then
    Returned (fallbackHRStep input)
  else
  let* messages := messages_list w in
  let assistantMessages :=
    List.filter (fun m => String.eqb (role m) "assistant") messages in
  if (length assistantMessages =? 0)%nat then Returned (fallbackHRStep input) else
  let response := responseText assistantMessages in
  if JS.isEmpty response then Returned (fallbackHRStep input) else
  Returned (advisoryResult input response thread_id run_id).

(** [try { ... } catch (error) { return fallbackHRStep(input) }] *)
Definition hrStep (w : World) (input : PipelineInput) : HRStepResult :=
  match hrStepTry w input with
  | Returned result => result
  | Thrown => fallbackHRStep input
  end.

(** ** steps/employee.ts *)

Definition employeeStep (input : PipelineInput) : EmployeeStepResult :=
  let normalizedEmployees :=
    JS.arrayFrom
      (JS.newSet
         (List.filter (fun emp => (0 <? String.length emp)%nat)
            (List.map (fun emp => JS.trim emp) (employees input)))) in
  {| normalizedEmployees := normalizedEmployees |}.

(** ** JavaScript numbers *)

Inductive number :=
| NaN
| Num (q : Qc).

Module Number.

Definition ofNat (n : nat) : number := Num (Q2Qc (inject_Z (Z.of_nat n))).

(** [a * b] *)
Definition mul (a b : number) : number :=
  match a, b with
  | Num x, Num y => Num (x * y)
  | _, _ => NaN
  end.

(** [a <= b]: false as soon as one side is [NaN]. *)
Definition leb (a b : number) : bool :=
  match a, b with
  | Num x, Num y => Qle_bool x y
  | _, _ => false
  end.

(** [a > b]: false as soon as one side is [NaN]. *)
Definition gtb (a b : number) : bool :=
  match a, b with
  | Num x, Num y => negb (Qle_bool x y)
  | _, _ => false
  end.

(** A number is falsy when it is [NaN] or zero. *)
Definition falsy (a : number) : bool :=
  match a with
  | NaN => true
  | Num x => Qc_eq_bool x 0
  end.

(** [a || b] *)
Definition or (a b : number) : number := if falsy a then b else a.

(** [Number(process.env.X)]: [None] stands for an unset variable, which
    converts to [NaN]; [Some n] for a text that converts to [n]. *)
Definition Number (v : option number) : number :=
  match v with
  | Some n => n
  | None => NaN
  end.

End Number.

(** ** steps/finance.ts *)

Record FinanceStepResult := {
  totalCost : number;
  budget : number;
  withinBudget : bool;
  costPerPerson : number
}.

(** The two variables of [process.env] read by [financeStep]. *)
Record Env := {
  LUNCH_BUDGET_PER_PERSON : option number;
  HEADCOUNT : option number
}.

Definition financeStep (env : Env) (employeeResult : EmployeeStepResult)
  : FinanceStepResult :=
  let headcount := Number.ofNat (length (normalizedEmployees employeeResult)) in
  let budgetPerPerson :=
    Number.or (Number.Number (LUNCH_BUDGET_PER_PERSON env)) (Number.ofNat 15) in
  let totalBudget := Number.mul (Number.Number (HEADCOUNT env)) budgetPerPerson in
  let totalCost := Number.mul headcount budgetPerPerson in
  let withinBudget := Number.leb totalCost totalBudget in
  {| totalCost := totalCost;
     budget := totalBudget;
     withinBudget := withinBudget;
     costPerPerson := budgetPerPerson |}.

(** ** steps/manager.ts *)

Record ManagerStepResult := {
  approved : bool;
  message : string;
  finalDecision : string
}.

Section Manager.

(** The text of a number inside a template literal. *)
Variable toString : number -> string.

Definition managerStep (hrResult : HRStepResult) (financeResult : FinanceStepResult)
  : ManagerStepResult :=
  let isHighRisk := match riskLevel hrResult with high => true | _ => false end in
  let overBudget := negb (withinBudget financeResult) in
  if isHighRisk then
    {| approved := false;
       message := "BLOCKED: High risk level detected in lunch menu. Reasons: "
                  +:+ JS.join ", " (reasons hrResult);
       finalDecision := "Lunch order rejected due to high health/safety risk" |}
  else if overBudget then
    {| approved := false;
       message := "BLOCKED: Budget exceeded. Total cost: $"
                  +:+ toString (totalCost financeResult)
                  +:+ ", Budget: $" +:+ toString (budget financeResult);
       finalDecision := "Lunch order rejected due to budget constraints" |}
  else if match riskLevel hrResult with medium => true | _ => false end then
    {| approved := true;
       message := "APPROVED with caution: Medium risk detected. "
                  +:+ JS.join ", " (reasons hrResult)
                  +:+ ". Please review sanitized menu.";
       finalDecision :=
         "Lunch order approved with caution - please review the sanitized menu" |}
  else
    {| approved := true;
       message := "APPROVED: All checks passed. Cost: $"
                  +:+ toString (totalCost financeResult)
                  +:+ " within budget of $" +:+ toString (budget financeResult);
       finalDecision := "Lunch order fully approved" |}.

End Manager.

(** ** pipeline *)

Record PipelineResult := {
  employee : EmployeeStepResult;
  hr : HRStepResult;
  finance : FinanceStepResult;
  manager : ManagerStepResult
}.

Definition runPipeline (toString : number -> string) (w : World) (env : Env)
    (input : PipelineInput) : PipelineResult :=
  let employeeResult := employeeStep input in
  let hrResult := hrStep w input in
  let financeResult := financeStep env employeeResult in
  let managerResult := managerStep toString hrResult financeResult in
  {| employee := employeeResult;
     hr := hrResult;
     finance := financeResult;
     manager := managerResult |}.

(** ** The wording of the specification

    Definitions that follow the specification's sentences, to be compared
    with the functions above. *)

Module Spec.

(** Section 4.8: the four outcomes of the decision maker. *)
Inductive Verdict :=
| RejectedForRisk
| RejectedForBudget
| ApprovedWithCaution
| FullyApproved.

(** "Deterministic precedence, evaluated in order, first match wins." *)
Definition verdict (risk : RiskLevel) (within : bool) : Verdict :=
  match risk, within with
  | high, _ => RejectedForRisk
  | _, false => RejectedForBudget
  | medium, true => ApprovedWithCaution
  | low, true => FullyApproved
  end.

Definition approves (v : Verdict) : bool :=
  match v with
  | RejectedForRisk | RejectedForBudget => false
  | ApprovedWithCaution | FullyApproved => true
  end.

Definition narrative (v : Verdict) : string :=
  match v with
  | RejectedForRisk => "Lunch order rejected due to high health/safety risk"
  | RejectedForBudget => "Lunch order rejected due to budget constraints"
  | ApprovedWithCaution =>
      "Lunch order approved with caution - please review the sanitized menu"
  | FullyApproved => "Lunch order fully approved"
  end.

(** Section 4.3: the ordered checks of the sanitizer. *)
Inductive Check :=
| ProhibitedSubstance
| RestrictedAlcohol
| MajorAllergen.

Definition checkOrder : list Check :=
  [ProhibitedSubstance; RestrictedAlcohol; MajorAllergen].

Definition fails (item : string) (c : Check) : bool :=
  match c with
  | ProhibitedSubstance => containsTobacco item
  | RestrictedAlcohol => containsHardLiquor item
  | MajorAllergen => containsMajorAllergens item
  end.

(** The first check of [checkOrder] that the item fails, if any. *)
Definition firstFailed (item : string) : option Check :=
  List.find (fails item) checkOrder.

Definition reasonText (c : Check) (item : string) : string :=
  match c with
  | ProhibitedSubstance => "🚫 Tobacco product removed: " +:+ item
  | RestrictedAlcohol => "🍷 Hard liquor removed: " +:+ item
  | MajorAllergen => "⚠️ Major allergen removed: " +:+ item
  end.

(** The one reason recorded for an item, [None] for an item that stays. *)
Definition violationOf (item : string) : option string :=
  match firstFailed item with
  | Some c => Some (reasonText c item)
  | None => None
  end.

Definition stays (item : string) : bool :=
  match firstFailed item with
  | Some _ => false
  | None => true
  end.

(** Section 4.1: "deduplicates by exact post-trim value keeping first
    occurrence": the head stays, and its later copies leave the rest. *)
Fixpoint firstOccurrences (l : list string) : list string :=
  match l with
  | [] => []
  | x :: rest =>
      x :: List.filter (fun y => negb (String.eqb y x)) (firstOccurrences rest)
  end.

(** Section 4.6: the rule-only classification of the fallback. *)
Definition prohibitedOrAllergen (item : string) : Prop :=
  containsTobacco item = true \/ containsMajorAllergens item = true.

Definition restrictedAlcohol (item : string) : Prop :=
  containsHardLiquor item = true.

Inductive ruleOnlyRisk (menu : list string) : RiskLevel -> Prop :=
| RiskHigh :
    Exists prohibitedOrAllergen menu ->
    ruleOnlyRisk menu high
| RiskMedium :
    ~ Exists prohibitedOrAllergen menu ->
    Exists restrictedAlcohol menu \/
      validateInclusivity (fst (sanitizeMenuBasedOnPolicy menu)) <> [] ->
    ruleOnlyRisk menu medium
| RiskLow :
    ~ Exists prohibitedOrAllergen menu ->
    ~ Exists restrictedAlcohol menu ->
    validateInclusivity (fst (sanitizeMenuBasedOnPolicy menu)) = [] ->
    ruleOnlyRisk menu low.

(** Section 4.5: the keywords of the response interpreter. *)
Definition highKeywords : list string :=
  ["tobacco"; "hard liquor"; "peanut"; "shellfish"; "high risk"; "dangerous"].

Definition mediumKeywords : list string :=
  ["medium risk"; "moderate"; "inclusivity"; "dietary restriction"; "allergen"].

(** Case-insensitive substring search. *)
Definition mentions (text keyword : string) : Prop :=
  JS.includes (JS.toLowerCase text) keyword = true.

End Spec.

(** The status calls 0 .. k-1 all return, with a run still queued or in
    progress. *)
Definition pendingUntil (w : World) (k : nat) : Prop :=
  forall i, (i < k)%nat ->
    exists status, runs_get w i = Returned status /\ isPending status = true.

(** The steps before the polling all succeed: the configuration is there,
    the credential is valid, and the client, the thread [t], the message
    and the run [r] are created. *)
Definition submitted (w : World) (t r : string) : Prop :=
  truthy (AZURE_AI_PROJECT_ENDPOINT w) = true /\
  truthy (AZURE_AI_AGENT_ID w) = true /\
  newDefaultAzureCredential w = Returned tt /\
  validateAzureCredentials w = true /\
  newAIProjectClient w = Returned tt /\
  threads_create w = Returned t /\
  messages_create w = Returned tt /\
  runs_create w = Returned r.

(** The status call [k] is the first to show the run neither queued nor
    in progress; [status] is what it shows. *)
Definition settledAt (w : World) (k : nat) (status : RunStatus) : Prop :=
  pendingUntil w k /\ runs_get w k = Returned status /\ isPending status = false.

(** The advisory path runs to its end: the run is submitted, it is seen
    settled before the ceiling, neither failed nor cancelled, and the first
    assistant message of the thread starts with a non-empty text, the
    [response]. *)
Definition advisorySucceeds (w : World) (response t r : string) : Prop :=
  submitted w t r /\
  exists k status messages,
    (k < maxAttempts)%nat /\
    settledAt w k status /\
    status <> failed /\ status <> cancelled /\
    messages_list w = Returned messages /\
    response =
      responseText (List.filter (fun m => String.eqb (role m) "assistant") messages) /\
    JS.isEmpty response = false.

(** The advisory path is not used: no endpoint, no agent id, or the
    credential validation fails. *)
Definition advisoryNotUsed (w : World) : Prop :=
  truthy (AZURE_AI_PROJECT_ENDPOINT w) = false \/
  truthy (AZURE_AI_AGENT_ID w) = false \/
  validateAzureCredentials w = false.

(** An item that none of the three policy predicates matches. *)
Definition clean (item : string) : Prop :=
  containsTobacco item = false /\
  containsHardLiquor item = false /\
  containsMajorAllergens item = false.

(** The item contains one of the keywords, whatever the case of its
    letters. *)
Definition mentionsAny (keywords : list string) (item : string) : bool :=
  JS.some (JS.includes (JS.toLowerCase item)) keywords.

(** ** Concrete worlds and inputs *)

Module Scenario.

Definition assistantSays (text : string) : list ThreadMessage :=
  [ {| role := "assistant"; content := [TextContent text] |};
    {| role := "user"; content := [TextContent "Analyze this lunch menu"] |} ].

(** A configured world with a valid credential, whose run is reported
    [queued] by the status calls 0 .. k-1 and [completed] from call [k]
    on, and whose thread then holds the assistant's answer [text]. *)
Definition completesAt (k : nat) (text : string) : World :=
  {| AZURE_AI_PROJECT_ENDPOINT := Some "https://lunch.services.ai.azure.com/api/projects/demo";
     AZURE_AI_AGENT_ID := Some "asst_lunch";
     newDefaultAzureCredential := Returned tt;
     getToken := Returned (Some "eyJ0eXAi");
     newAIProjectClient := Returned tt;
     threads_create := Returned "thread_abc123";
     messages_create := Returned tt;
     runs_create := Returned "run_xyz789";
     runs_get := fun i => Returned (if (i <? k)%nat then queued else completed);
     messages_list := Returned (assistantSays text) |}.

(** The process was started without the two Azure variables. *)
Definition unconfigured : World :=
  {| AZURE_AI_PROJECT_ENDPOINT := None;
     AZURE_AI_AGENT_ID := None;
     newDefaultAzureCredential := Returned tt;
     getToken := Thrown;
     newAIProjectClient := Thrown;
     threads_create := Thrown;
     messages_create := Thrown;
     runs_create := Thrown;
     runs_get := fun _ => Thrown;
     messages_list := Thrown |}.

Definition safeLunch : PipelineInput :=
  {| employees := ["Alice Johnson"; "Bob Smith"];
     lunchMenu := ["Grilled chicken salad"; "Quinoa bowl"] |}.

Definition riskyLunch : PipelineInput :=
  {| employees := [" Alice "; "Bob"; "Alice"];
     lunchMenu := ["Peanut butter cookies"; "Quinoa bowl"; "Shellfish pasta"] |}.

(** The two demo orders of the user interface. *)
Definition demo1 : PipelineInput :=
  {| employees := ["Alice Johnson"; "Bob Smith"; "Carol White"; "David Lee";
                   "Eve Martinez"; "Frank Chen"; "Grace Taylor"; "Henry Wilson"];
     lunchMenu := ["Grilled chicken salad"; "Quinoa bowl with vegetables";
                   "Turkey sandwich on whole wheat"; "Fresh fruit platter";
                   "Sparkling water"; "Green tea"] |}.

Definition demo2 : PipelineInput :=
  {| employees := ["Alice Johnson"; "Bob Smith"; "Carol White"; "David Lee";
                   "Eve Martinez"; "Frank Chen"; "Grace Taylor"; "Henry Wilson";
                   "Ivy Brown"; "Jack Davis"; "Kelly Moore"; "Leo Garcia"];
     lunchMenu := ["Peanut butter cookies"; "Shellfish pasta";
                   "Fried chicken with high-sodium sauce"; "Dairy-based creamy soup";
                   "Processed meat sandwiches"; "Soy sauce glazed salmon"] |}.

(** The variables of [.env.example]. *)
Definition exampleEnv : Env :=
  {| LUNCH_BUDGET_PER_PERSON := Some (Number.ofNat 15);
     HEADCOUNT := Some (Number.ofNat 10) |}.

(** The process was started without [HEADCOUNT]. *)
Definition noHeadcountEnv : Env :=
  {| LUNCH_BUDGET_PER_PERSON := Some (Number.ofNat 15);
     HEADCOUNT := None |}.

End Scenario.

(** ** index.ts: the route [POST /api/pipeline/run]

    A value of a parsed JSON body; [VUndefined] stands for a key that the
    body does not have, [VObject] for any object. *)

Inductive Value :=
| VUndefined
| VNull
| VBoolean (b : bool)
| VNumber (n : number)
| VString (s : string)
| VArray (items : list Value)
| VObject.

(** [!v] *)
Definition isFalsy (v : Value) : bool :=
  match v with
  | VUndefined | VNull => true
  | VBoolean b => negb b
  | VNumber n => Number.falsy n
  | VString s => JS.isEmpty s
  | VArray _ | VObject => false
  end.

(** [Array.isArray(v)] *)
Definition isArray (v : Value) : bool :=
  match v with
  | VArray _ => true
  | _ => false
  end.

Definition itemsOf (v : Value) : list Value :=
  match v with
  | VArray items => items
  | _ => []
  end.

(** The steps call a method of strings on every element of the two arrays
    ([emp.trim()] in [employeeStep], [item.toLowerCase()] in the sanitizer
    that every path of [hrStep] runs): the call throws a [TypeError] on the
    first element that is not a string. *)
Fixpoint asStrings (items : list Value) : Outcome (list string) :=
  match items with
  | [] => Returned []
  | VString s :: rest =>
      let* strings := asStrings rest in
      Returned (s :: strings)
  | _ :: _ => Thrown
  end.

(** [req.body.employees] and [req.body.lunchMenu]. *)
Record Body := {
  body_employees : Value;
  body_lunchMenu : Value
}.

(** The response: its status and, for a success, the result; the [message]
    of a response 500 is the text of the exception and is left out. *)
Inductive Response :=
| Status400 (error : string)
| Status500
| Status200 (result : PipelineResult).

(** [runPipeline] on the arrays of a body. *)
Definition runPipelineOn (toString : number -> string) (w : World) (env : Env)
    (input : Body) : Outcome PipelineResult :=
  let* employees := asStrings (itemsOf (body_employees input)) in
  let* lunchMenu := asStrings (itemsOf (body_lunchMenu input)) in
  Returned (runPipeline toString w env
              {| employees := employees; lunchMenu := lunchMenu |}).

(** The handler of the route; [None] is a request whose [req.body] is
    undefined, on which reading [input.employees] throws. *)
Definition handleRun (toString : number -> string) (w : World) (env : Env)
    (body : option Body) : Response :=
  match body with
  | None => Status500
  | Some input =>
      if isFalsy (body_employees input) || negb (isArray (body_employees input)) then
        Status400 "Invalid input: employees array is required"
      else if isFalsy (body_lunchMenu input) || negb (isArray (body_lunchMenu input)) then
        Status400 "Invalid input: lunchMenu array is required"
      else
        match runPipelineOn toString w env input with
        | Returned result => Status200 result
        | Thrown => Status500
        end
  end.

(** ** The form of the user interface *)

Module App.

(** [s.split(sep)] for a separator of one character. *)
Fixpoint split (s : string) (sep : ascii) : list string :=
  match s with
  | EmptyString => [""]
  | String c s' =>
      if Ascii.eqb c sep then "" :: split s' sep
      else
        match split s' sep with
        | line :: lines => String c line :: lines
        | [] => [String c ""]
        end
  end.

Definition newline : ascii := "010"%char.

(** The [input] that [handleSubmit] builds from the two text areas. *)
Definition submittedInput (employees lunchMenu : string) : PipelineInput :=
  {| employees :=
       List.filter (fun e => negb (JS.isEmpty (JS.trim e))) (split employees newline);
     lunchMenu :=
       List.filter (fun m => negb (JS.isEmpty (JS.trim m))) (split lunchMenu newline) |}.

(** The values of the two text areas after [loadDemo]. *)
Definition loadDemo (demo : PipelineInput) : string * string :=
  (JS.join (String newline "") (employees demo),
   JS.join (String newline "") (lunchMenu demo)).

(** The body of the request: [JSON.stringify(input)], parsed by the server. *)
Definition bodyOf (input : PipelineInput) : Body :=
  {| body_employees := VArray (List.map VString (employees input));
     body_lunchMenu := VArray (List.map VString (lunchMenu input)) |}.

(** A line that survives the filter of [handleSubmit] when it stands
    alone: it has no line break and is not blank. *)
Definition isLine (s : string) : Prop :=
  JS.includes s (String newline "") = false /\ JS.isEmpty (JS.trim s) = false.

End App.

(** ** steps/hr.ts without a ceiling

    The repository holds a second, shorter version of the HR step
    (src/unnamed/part_002): its polling loop has no ceiling, it neither
    validates the credential nor looks at the final status of the run, and
    its rules know allergens and unhealthy items only. *)

Module Basic.

Definition safeReason : string := "Menu appears safe".

(** [reasons.length > 0 ? reasons : ['Menu appears safe']] *)
Definition orSafe (reasons : list string) : list string :=
  if (0 <? length reasons)%nat then reasons else [safeReason].

Definition allergens : list string :=
  ["peanut"; "shellfish"; "dairy"; "gluten"; "soy"; "egg"].

Definition unhealthy : list string := ["fried"; "processed"; "high-sodium"].

Definition fallbackHRStep (input : PipelineInput) : HRStepResult :=
  let lowerMenu := List.map JS.toLowerCase (lunchMenu input) in
  let risks := [] in
  let riskLevel := low in
  let foundAllergens :=
    List.filter
      (fun allergen => JS.some (fun item => JS.includes item allergen) lowerMenu)
      allergens in
  let '(risks, riskLevel) :=
    if (0 <? length foundAllergens)%nat then
      (risks ++ ["Contains allergens: " +:+ JS.join ", " foundAllergens],
       if (2 <? length foundAllergens)%nat then high else medium)
    else (risks, riskLevel) in
  let foundUnhealthy :=
    List.filter
      (fun term => JS.some (fun item => JS.includes item term) lowerMenu)
      unhealthy in
  let '(risks, riskLevel) :=
    if (2 <? length foundUnhealthy)%nat then
      (risks ++ ["Multiple unhealthy items detected"],
       match riskLevel with high => high | _ => medium end)
    else (risks, riskLevel) in
  let sanitizedMenu :=
    List.filter
      (fun item =>
         negb (JS.includes (JS.toLowerCase item) "peanut") &&
         negb (JS.includes (JS.toLowerCase item) "shellfish"))
      (lunchMenu input) in
  {| sanitizedMenu := sanitizedMenu;
     riskLevel := riskLevel;
     reasons := orSafe risks;
     threadId := None;
     runId := None |}.

(** [messages.find(m => m.role === 'assistant')?.content[0]], then
    ['text' in textContent ? textContent.text.value : '']. *)
Definition responseText (messages : list ThreadMessage) : string :=
  match List.find (fun m => String.eqb (role m) "assistant") messages with
  | Some assistantMessage =>
      match content assistantMessage with
      | TextContent value :: _ => value
      | _ => ""
      end
  | None => ""
  end.

(** The result built at the end of the [try] block. *)
Definition advisoryResult (input : PipelineInput) (response thread_id run_id : string)
  : HRStepResult :=
  let inc := JS.includes (JS.toLowerCase response) in
  let riskLevel :=
    if inc "high" then high else if inc "medium" then medium else low in
  let reasons := [] in
  let reasons := pushIf (inc "allergen") "Contains potential allergens" reasons in
  let reasons := pushIf (inc "dietary") "Dietary restriction concerns" reasons in
  let reasons := pushIf (inc "health") "Health risk identified" reasons in
  {| sanitizedMenu :=
       List.filter (fun item => negb (JS.includes (JS.toLowerCase item) "peanut"))
         (lunchMenu input);
     riskLevel := riskLevel;
     reasons := orSafe reasons;
     threadId := Some thread_id;
     runId := Some run_id |}.

(** [while (pending) { sleep; runStatus = await runs.get(..) }].  The loop
    has no bound of its own: [None] says that it is still running after
    [fuel] iterations, [calls] counts the status calls made so far. *)
Fixpoint pollLoop (w : World) (fuel : nat) (runStatus : RunStatus) (calls : nat)
  : option (Outcome RunStatus) :=
  if isPending runStatus then
    match fuel with
    | O => None
    | S fuel' =>
        match runs_get w (S calls) with
        | Returned runStatus' => pollLoop w fuel' runStatus' (S calls)
        | Thrown => Some Thrown
        end
    end
  else Some (Returned runStatus).

(** The calls of the [try] block before the loop. *)
Definition submit (w : World) : Outcome (string * string * RunStatus) :=
  let* _ := newDefaultAzureCredential w in
  let* _ := newAIProjectClient w in
  let* thread_id := threads_create w in
  let* _ := messages_create w in
  let* run_id := runs_create w in
  let* runStatus := runs_get w 0 in
  Returned (thread_id, run_id, runStatus).

(** The body of the [try] block, its loop run for at most [fuel]
    iterations. *)
Definition hrStepTry (w : World) (input : PipelineInput) (fuel : nat)
  : option (Outcome HRStepResult) :=
  let endpoint := AZURE_AI_PROJECT_ENDPOINT w in
  let agentId := AZURE_AI_AGENT_ID w in
  if negb (truthy endpoint) || negb (truthy agentId) then
    Some (Returned (fallbackHRStep input))
  else
  match submit w with
  | Thrown => Some Thrown
  | Returned (thread_id, run_id, runStatus) =>
      match pollLoop w fuel runStatus 0 with
      | None => None
      | Some Thrown => Some Thrown
      | Some (Returned _) =>
          Some (let* messages := messages_list w in
                let response := responseText messages in
                Returned (advisoryResult input response thread_id run_id))
      end
  end.

(** [try { ... } catch (error) { return fallbackHRStep(input) }]; [None]
    when the step has not returned after [fuel] iterations of its loop. *)
Definition hrStep (w : World) (input : PipelineInput) (fuel : nat)
  : option HRStepResult :=
  match hrStepTry w input fuel with
  | None => None
  | Some (Returned result) => Some result
  | Some Thrown => Some (fallbackHRStep input)
  end.

(** The steps before the polling all succeed: the configuration is there
    and the client, the thread [t], the message and the run [r] are
    created. *)
Definition submitted (w : World) (t r : string) : Prop :=
  truthy (AZURE_AI_PROJECT_ENDPOINT w) = true /\
  truthy (AZURE_AI_AGENT_ID w) = true /\
  newDefaultAzureCredential w = Returned tt /\
  newAIProjectClient w = Returned tt /\
  threads_create w = Returned t /\
  messages_create w = Returned tt /\
  runs_create w = Returned r.

(** The run is reported queued or in progress by every status call. *)
Definition neverSettles (w : World) : Prop := forall k, pendingUntil w k.

(** A configured world whose run every status call reports as [status],
    and whose thread holds the [messages]. *)
Definition reports (status : RunStatus) (messages : list ThreadMessage) : World :=
  {| AZURE_AI_PROJECT_ENDPOINT := Some "https://lunch.services.ai.azure.com/api/projects/demo";
     AZURE_AI_AGENT_ID := Some "asst_lunch";
     newDefaultAzureCredential := Returned tt;
     getToken := Returned (Some "eyJ0eXAi");
     newAIProjectClient := Returned tt;
     threads_create := Returned "thread_abc123";
     messages_create := Returned tt;
     runs_create := Returned "run_xyz789";
     runs_get := fun _ => Returned status;
     messages_list := Returned messages |}.

(** The run stays queued for ever. *)
Definition staysQueued : World := reports queued [].

(** The run has failed when its status is first asked for, and the
    assistant has not answered. *)
Definition failsAtOnce : World := reports failed [].

End Basic.

(** * Properties *)

(** ** The manager step *)

Lemma managerStep_verdict toString hrResult financeResult :
  let v := Spec.verdict (riskLevel hrResult) (withinBudget financeResult) in
  approved (managerStep toString hrResult financeResult) = Spec.approves v /\
  finalDecision (managerStep toString hrResult financeResult) = Spec.narrative v.
Proof.
  unfold managerStep.
  destruct (riskLevel hrResult), (withinBudget financeResult); simpl; split; reflexivity.
Qed.

(** C1. For every risk level and budget outcome, [managerStep] applies the
    precedence high risk > over budget > medium risk > default, first match
    wins: a high risk is rejected whatever the budget; otherwise an order
    over budget is rejected; otherwise a medium risk is approved with the
    caution message; otherwise the order is fully approved.  The outcome is
    the verdict of section 4.8. *)
Theorem managerStep_precedence toString hrResult financeResult :
  let result := managerStep toString hrResult financeResult in
  (riskLevel hrResult = high ->
     approved result = false /\
     finalDecision result = "Lunch order rejected due to high health/safety risk") /\
  (riskLevel hrResult <> high -> withinBudget financeResult = false ->
     approved result = false /\
     finalDecision result = "Lunch order rejected due to budget constraints") /\
  (riskLevel hrResult = medium -> withinBudget financeResult = true ->
     approved result = true /\
     message result =
       "APPROVED with caution: Medium risk detected. "
       +:+ JS.join ", " (reasons hrResult) +:+ ". Please review sanitized menu." /\
     finalDecision result =
       "Lunch order approved with caution - please review the sanitized menu") /\
  (riskLevel hrResult = low -> withinBudget financeResult = true ->
     approved result = true /\
     finalDecision result = "Lunch order fully approved") /\
  approved result =
    Spec.approves (Spec.verdict (riskLevel hrResult) (withinBudget financeResult)) /\
  finalDecision result =
    Spec.narrative (Spec.verdict (riskLevel hrResult) (withinBudget financeResult)).
Proof.
  intros result.
  destruct (managerStep_verdict toString hrResult financeResult) as [Happ Hfin].
  subst result. unfold managerStep in *.
  destruct (riskLevel hrResult) eqn:Hrisk, (withinBudget financeResult) eqn:Hin;
    simpl in *; repeat split; intros; try congruence; auto.
Qed.

Lemma managerStep_precedence_witness :
  let hrResult := fallbackHRStep Scenario.riskyLunch in
  let financeResult :=
    financeStep Scenario.exampleEnv (employeeStep Scenario.riskyLunch) in
  riskLevel hrResult = high /\
  withinBudget financeResult = true /\
  approved (managerStep (fun _ => "150") hrResult financeResult) = false.
Proof.
  intros hrResult financeResult.
  assert (Hhigh : riskLevel hrResult = high) by (vm_compute; reflexivity).
  split; [exact Hhigh|]. split; [vm_compute; reflexivity|].
  apply (proj1 (managerStep_precedence (fun _ => "150") hrResult financeResult)).
  exact Hhigh.
Defined.

(** ** The employee step *)

Lemma filter_sublist {A} (f : A -> bool) (l : list A) :
  List.filter f l `sublist_of` l.
Proof.
  induction l as [|x l IH]; simpl.
  - constructor.
  - destruct (f x); [apply sublist_skip | apply sublist_cons]; exact IH.
Qed.

Lemma filter_filter {A} (f g : A -> bool) (l : list A) :
  List.filter f (List.filter g l) = List.filter (fun x => g x && f x) l.
Proof.
  induction l as [|x l IH]; simpl; [reflexivity|].
  destruct (g x); simpl; [destruct (f x)|]; rewrite IH; reflexivity.
Qed.

Lemma elem_of_filter_bool {A} (f : A -> bool) (l : list A) (x : A) :
  x ∈ List.filter f l <-> x ∈ l /\ f x = true.
Proof. rewrite !list_elem_of_In. apply List.filter_In. Qed.

Lemma NoDup_filter_bool {A} (f : A -> bool) (l : list A) :
  NoDup l -> NoDup (List.filter f l).
Proof.
  induction 1 as [|x l Hx Hl IH]; simpl; [constructor|].
  destruct (f x); [|exact IH].
  constructor; [|exact IH].
  rewrite elem_of_filter_bool. tauto.
Qed.

Lemma has_true (s : JS.SetOf) (x : string) : JS.has s x = true <-> x ∈ s.
Proof.
  unfold JS.has. rewrite existsb_exists. split.
  - intros (y & Hy & Heq). apply String.eqb_eq in Heq. subst y.
    apply list_elem_of_In. exact Hy.
  - intros Hx. exists x. split; [apply list_elem_of_In; exact Hx | apply String.eqb_refl].
Qed.

Lemma has_app (s : JS.SetOf) (x y : string) :
  JS.has (s ++ [x]) y = JS.has s y || String.eqb y x.
Proof. unfold JS.has. rewrite existsb_app. simpl. rewrite orb_false_r. reflexivity. Qed.

(** Inserting into a set, element after element, keeps the first occurrence
    of every value that is not yet in the set. *)
Lemma fold_add_firstOccurrences (l : list string) (acc : JS.SetOf) :
  fold_left JS.add l acc =
  acc ++ List.filter (fun y => negb (JS.has acc y)) (Spec.firstOccurrences l).
Proof.
  revert acc. induction l as [|x l IH]; intros acc; simpl.
  - rewrite app_nil_r. reflexivity.
  - rewrite IH. unfold JS.add. destruct (JS.has acc x) eqn:Hx; simpl.
    + f_equal. rewrite filter_filter. apply List.filter_ext. intros y.
      destruct (String.eqb_spec y x) as [->|Hne]; simpl.
      * rewrite Hx. reflexivity.
      * reflexivity.
    + rewrite <- app_assoc. simpl. do 2 f_equal.
      rewrite filter_filter. apply List.filter_ext. intros y.
      rewrite has_app, negb_orb. apply andb_comm.
Qed.

Lemma newSet_firstOccurrences (l : list string) :
  JS.newSet l = Spec.firstOccurrences l.
Proof.
  unfold JS.newSet. rewrite fold_add_firstOccurrences. simpl.
  induction (Spec.firstOccurrences l) as [|y k IH]; simpl; [reflexivity|].
  f_equal. exact IH.
Qed.

Lemma firstOccurrences_elem (l : list string) (x : string) :
  x ∈ Spec.firstOccurrences l <-> x ∈ l.
Proof.
  induction l as [|y l IH]; simpl; [reflexivity|].
  rewrite !elem_of_cons, elem_of_filter_bool, IH.
  destruct (String.eqb_spec x y) as [->|Hne]; simpl; intuition congruence.
Qed.

Lemma firstOccurrences_NoDup (l : list string) : NoDup (Spec.firstOccurrences l).
Proof.
  induction l as [|y l IH]; simpl; constructor.
  - rewrite elem_of_filter_bool, String.eqb_refl. simpl. intros [_ H]. discriminate.
  - apply NoDup_filter_bool. exact IH.
Qed.

Lemma firstOccurrences_sublist (l : list string) : Spec.firstOccurrences l `sublist_of` l.
Proof.
  induction l as [|y l IH]; simpl; [constructor|].
  apply sublist_skip. etransitivity; [apply filter_sublist | exact IH].
Qed.

Lemma length_pos_nonempty (s : string) :
  (0 <? String.length s)%nat = negb (JS.isEmpty s).
Proof. destruct s; reflexivity. Qed.

(** C7. For every raw list of employees, the output of [employeeStep] has
    no duplicates and no empty string; it is a subsequence of the trimmed
    input, made of the first occurrence of each distinct non-empty trimmed
    value in their order; the empty input gives the empty output. *)
Theorem employeeStep_normalizes (input : PipelineInput) :
  let trimmed := List.map JS.trim (employees input) in
  let out := normalizedEmployees (employeeStep input) in
  NoDup out /\
  ("" ∉ out) /\
  (out `sublist_of` trimmed) /\
  out = Spec.firstOccurrences (List.filter (fun s => negb (JS.isEmpty s)) trimmed) /\
  (forall x, x ∈ out <-> x ∈ trimmed /\ x <> "") /\
  normalizedEmployees
    (employeeStep {| employees := []; lunchMenu := lunchMenu input |}) = [].
Proof.
  intros trimmed out.
  assert (Hout : out =
    Spec.firstOccurrences (List.filter (fun s => negb (JS.isEmpty s)) trimmed)).
  { subst out trimmed. unfold employeeStep, JS.arrayFrom. simpl.
    rewrite newSet_firstOccurrences. f_equal.
    apply List.filter_ext. intros s. apply length_pos_nonempty. }
  assert (Hin : forall x, x ∈ out <-> x ∈ trimmed /\ x <> "").
  { intros x. rewrite Hout, firstOccurrences_elem, elem_of_filter_bool.
    destruct x; simpl; intuition congruence. }
  split; [|split; [|split; [|split; [|split]]]].
  - rewrite Hout. apply firstOccurrences_NoDup.
  - intros H. apply Hin in H. destruct H as [_ H]. congruence.
  - rewrite Hout. etransitivity; [apply firstOccurrences_sublist | apply filter_sublist].
  - exact Hout.
  - exact Hin.
  - reflexivity.
Qed.

(** ** The menu sanitizer *)

Lemma sanitizeItem_violationOf (item : string) (violations : list string) :
  sanitizeItem item violations =
  match Spec.violationOf item with
  | Some reason => (false, violations ++ [reason])
  | None => (true, violations)
  end.
Proof.
  unfold sanitizeItem, Spec.violationOf, Spec.firstFailed. simpl.
  destruct (containsTobacco item); [reflexivity|].
  destruct (containsHardLiquor item); [reflexivity|].
  destruct (containsMajorAllergens item); reflexivity.
Qed.

Lemma stays_violationOf (item : string) :
  Spec.stays item = true <-> Spec.violationOf item = None.
Proof.
  unfold Spec.stays, Spec.violationOf.
  destruct (Spec.firstFailed item); split; congruence.
Qed.

(** The closure state after the whole [filter]: the reasons already there,
    then one reason for each removed item, in the order of the menu. *)
Lemma filterWith_sanitizeItem (menu violations : list string) :
  JS.filterWith sanitizeItem menu violations =
  (List.filter Spec.stays menu, violations ++ omap Spec.violationOf menu).
Proof.
  revert violations. induction menu as [|item menu IH]; intros violations; simpl.
  - rewrite app_nil_r. reflexivity.
  - rewrite sanitizeItem_violationOf. unfold Spec.stays, Spec.violationOf.
    destruct (Spec.firstFailed item) as [c|]; rewrite IH; simpl.
    + rewrite <- app_assoc. reflexivity.
    + reflexivity.
Qed.

Lemma sanitize_eq (menu : list string) :
  sanitizeMenuBasedOnPolicy menu =
  (List.filter Spec.stays menu, omap Spec.violationOf menu).
Proof. unfold sanitizeMenuBasedOnPolicy. apply filterWith_sanitizeItem. Qed.

Lemma removed_reasons (menu : list string) :
  Forall2 (fun item reason => Spec.violationOf item = Some reason)
    (List.filter (fun item => negb (Spec.stays item)) menu)
    (omap Spec.violationOf menu).
Proof.
  induction menu as [|item menu IH]; simpl; [constructor|].
  unfold Spec.stays at 1. unfold Spec.violationOf at 2.
  destruct (Spec.firstFailed item) as [c|] eqn:Hc; simpl.
  - constructor; [|exact IH]. unfold Spec.violationOf. rewrite Hc. reflexivity.
  - exact IH.
Qed.

Lemma filter_length_split {A} (f : A -> bool) (l : list A) :
  length (List.filter f l) + length (List.filter (fun x => negb (f x)) l) = length l.
Proof.
  induction l as [|x l IH]; simpl; [reflexivity|].
  destruct (f x); simpl; lia.
Qed.

(** C6. For every menu, the sanitized menu is a subsequence of the input
    (the items that stay, unchanged and in their order), and the violations
    are exactly one reason per removed item, in the order of the menu: the
    reason of the first check the item fails in the order prohibited
    substance, restricted alcohol, major allergen. *)
Theorem sanitize_subsequence_one_reason (menu : list string) :
  let sanitized := fst (sanitizeMenuBasedOnPolicy menu) in
  let violations := snd (sanitizeMenuBasedOnPolicy menu) in
  let removed := List.filter (fun item => negb (Spec.stays item)) menu in
  (sanitized `sublist_of` menu) /\
  sanitized = List.filter Spec.stays menu /\
  violations = omap Spec.violationOf menu /\
  Forall2 (fun item reason =>
             exists c, Spec.firstFailed item = Some c /\
                       reason = Spec.reasonText c item)
    removed violations /\
  length violations = length removed /\
  length sanitized + length violations = length menu.
Proof.
  intros sanitized violations removed.
  subst sanitized violations removed. rewrite sanitize_eq. simpl.
  pose proof (removed_reasons menu) as Hrem.
  split; [apply filter_sublist|].
  split; [reflexivity|].
  split; [reflexivity|].
  split.
  - eapply Forall2_impl; [exact Hrem|]. intros item reason. simpl.
    unfold Spec.violationOf. destruct (Spec.firstFailed item) as [c|]; [|discriminate].
    intros [= <-]. exists c. split; reflexivity.
  - pose proof (Forall2_length _ _ _ Hrem) as Hlen.
    pose proof (filter_length_split Spec.stays menu). lia.
Qed.

(** An item that fails several checks is removed once, under the first. *)
Example sanitize_cigar_rum_cake :
  sanitizeMenuBasedOnPolicy ["Quinoa bowl"; "Rum cake with a CIGAR"; "Peanut rum punch"] =
  (["Quinoa bowl"],
   ["🚫 Tobacco product removed: Rum cake with a CIGAR";
    "🍷 Hard liquor removed: Peanut rum punch"]).
Proof. vm_compute. reflexivity. Qed.

Lemma stays_clean (item : string) : Spec.stays item = true -> clean item.
Proof.
  unfold Spec.stays, Spec.firstFailed, clean. simpl.
  destruct (containsTobacco item); [discriminate|].
  destruct (containsHardLiquor item); [discriminate|].
  destruct (containsMajorAllergens item); [discriminate|].
  auto.
Qed.

Lemma sanitize_clean (menu : list string) :
  Forall clean (fst (sanitizeMenuBasedOnPolicy menu)).
Proof.
  rewrite sanitize_eq. simpl. apply Forall_forall. intros item Hin.
  apply elem_of_filter_bool in Hin. apply stays_clean, Hin.
Qed.

Lemma fallbackHRStep_sanitizedMenu (input : PipelineInput) :
  sanitizedMenu (fallbackHRStep input) = fst (sanitizeMenuBasedOnPolicy (lunchMenu input)).
Proof.
  unfold fallbackHRStep. destruct (sanitizeMenuBasedOnPolicy (lunchMenu input)). reflexivity.
Qed.

Lemma advisoryResult_sanitizedMenu (input : PipelineInput) (response t r : string) :
  sanitizedMenu (advisoryResult input response t r) =
  fst (sanitizeMenuBasedOnPolicy (lunchMenu input)).
Proof.
  unfold advisoryResult. destruct (sanitizeMenuBasedOnPolicy (lunchMenu input)). reflexivity.
Qed.

(** ** The HR step *)

(** The [try] block ends in one of three ways: an exception, the fallback
    result, or the result built from a non-empty answer of the assistant
    together with the ids of the thread and of the run. *)
Lemma hrStepTry_cases (w : World) (input : PipelineInput) :
  hrStepTry w input = Thrown \/
  hrStepTry w input = Returned (fallbackHRStep input) \/
  exists response t r,
    JS.isEmpty response = false /\
    threads_create w = Returned t /\
    runs_create w = Returned r /\
    hrStepTry w input = Returned (advisoryResult input response t r).
Proof.
  unfold hrStepTry.
  destruct (negb (truthy (AZURE_AI_PROJECT_ENDPOINT w)) ||
            negb (truthy (AZURE_AI_AGENT_ID w))); [auto|].
  destruct (newDefaultAzureCredential w); cbn [bind]; [|auto].
  destruct (negb (validateAzureCredentials w)); [auto|].
  destruct (newAIProjectClient w); cbn [bind]; [|auto].
  destruct (threads_create w) as [t|]; cbn [bind]; [|auto].
  destruct (messages_create w); cbn [bind]; [|auto].
  destruct (runs_create w) as [r|]; cbn [bind]; [|auto].
  destruct (runs_get w 0) as [s0|]; cbn [bind]; [|auto].
  destruct (pollLoop w maxAttempts s0 0) as [[s k]|]; cbn [bind]; [|auto].
  destruct (maxAttempts <=? k)%nat; [auto|].
  destruct (match s with failed | cancelled => true | _ => false end); [auto|].
  destruct (messages_list w) as [messages|]; cbn [bind]; [|auto].
  set (assistantMessages := List.filter _ messages).
  destruct (length assistantMessages =? 0)%nat; [auto|].
  destruct (JS.isEmpty (responseText assistantMessages)) eqn:Hresp; [auto|].
  right. right. exists (responseText assistantMessages), t, r.
  repeat split; auto.
Qed.

Lemma fallbackHRStep_ids (input : PipelineInput) :
  threadId (fallbackHRStep input) = None /\ runId (fallbackHRStep input) = None.
Proof.
  unfold fallbackHRStep. destruct (sanitizeMenuBasedOnPolicy (lunchMenu input)).
  split; reflexivity.
Qed.

Lemma advisoryResult_ids (input : PipelineInput) (response t r : string) :
  threadId (advisoryResult input response t r) = Some t /\
  runId (advisoryResult input response t r) = Some r.
Proof.
  unfold advisoryResult. destruct (sanitizeMenuBasedOnPolicy (lunchMenu input)).
  split; reflexivity.
Qed.

Lemma advisoryResult_riskLevel (input : PipelineInput) (response t r : string) :
  riskLevel (advisoryResult input response t r) = parseRiskLevel response.
Proof.
  unfold advisoryResult. destruct (sanitizeMenuBasedOnPolicy (lunchMenu input)).
  reflexivity.
Qed.

Lemma hrStep_cases (w : World) (input : PipelineInput) :
  hrStep w input = fallbackHRStep input \/
  exists response t r,
    JS.isEmpty response = false /\
    threads_create w = Returned t /\
    runs_create w = Returned r /\
    hrStep w input = advisoryResult input response t r.
Proof.
  unfold hrStep.
  destruct (hrStepTry_cases w input) as [H|[H|(response & t & r & Hne & Ht & Hr & H)]];
    rewrite H; eauto 10.
Qed.

(** C10. For every menu, no item that one of the three policy predicates
    matches survives the sanitizer: every item of the sanitized menu, and
    hence of the menu returned by the fallback branch, by the advisory
    branch and by [hrStep] in every world, matches none of them. *)
Theorem sanitized_menu_is_clean (w : World) (input : PipelineInput) :
  Forall clean (fst (sanitizeMenuBasedOnPolicy (lunchMenu input))) /\
  Forall clean (sanitizedMenu (fallbackHRStep input)) /\
  (forall response t r, Forall clean (sanitizedMenu (advisoryResult input response t r))) /\
  Forall clean (sanitizedMenu (hrStep w input)).
Proof.
  pose proof (sanitize_clean (lunchMenu input)) as Hclean.
  split; [exact Hclean|].
  split; [rewrite fallbackHRStep_sanitizedMenu; exact Hclean|].
  split; [intros; rewrite advisoryResult_sanitizedMenu; exact Hclean|].
  destruct (hrStep_cases w input) as [H|(response & t & r & _ & _ & _ & H)]; rewrite H.
  - rewrite fallbackHRStep_sanitizedMenu. exact Hclean.
  - rewrite advisoryResult_sanitizedMenu. exact Hclean.
Qed.


(** *** The polling loop *)

(** When the status calls before [k] show a pending run and call [k] shows
    [s], the loop started at call [a <= k] ends with [(s, k)], provided [s]
    stops it or [k] is the ceiling. *)
Lemma pollLoop_reaches (w : World) (k : nat) (s : RunStatus) :
  pendingUntil w k ->
  runs_get w k = Returned s ->
  (k <= maxAttempts)%nat ->
  isPending s = false \/ k = maxAttempts ->
  forall d a p fuel,
    (a + d = k)%nat -> (d <= fuel)%nat -> runs_get w a = Returned p ->
    pollLoop w fuel p a = Returned (s, k).
Proof.
  intros Hpend Hk Hle Hstop. induction d as [|d IH]; intros a p fuel Hak Hfuel Ha.
  - replace a with k in * by lia. assert (p = s) by congruence. subst p.
    destruct fuel; simpl; [reflexivity|].
    destruct Hstop as [Hs | ->].
    + rewrite Hs. reflexivity.
    + rewrite Nat.ltb_irrefl, andb_false_r. reflexivity.
  - destruct fuel as [|fuel]; [lia|]. simpl.
    destruct (Hpend a) as (p' & Hp' & Hpending); [lia|].
    assert (p' = p) by congruence. subst p'. rewrite Hpending.
    assert (Hlt : (a <? maxAttempts)%nat = true) by (apply Nat.ltb_lt; lia).
    rewrite Hlt. simpl.
    assert (Hnext : exists q, runs_get w (S a) = Returned q).
    { destruct (Nat.eq_dec (S a) k) as [<-|Hne]; [eauto|].
      destruct (Hpend (S a)) as (q & Hq & _); [lia|eauto]. }
    destruct Hnext as (q & Hq). rewrite Hq. cbn [bind].
    apply IH; [lia | lia | exact Hq].
Qed.

(** When the status calls before [k] show a pending run and call [k]
    throws, so does the loop. *)
Lemma pollLoop_throws (w : World) (k : nat) :
  pendingUntil w k ->
  runs_get w k = Thrown ->
  (k <= maxAttempts)%nat ->
  forall d a p fuel,
    (a + S d = k)%nat -> (d < fuel)%nat -> runs_get w a = Returned p ->
    pollLoop w fuel p a = Thrown.
Proof.
  intros Hpend Hk Hle. induction d as [|d IH]; intros a p fuel Hak Hfuel Ha;
    (destruct fuel as [|fuel]; [lia|]); simpl;
    (destruct (Hpend a) as (p' & Hp' & Hpending); [lia|]);
    assert (p' = p) by congruence; subst p'; rewrite Hpending;
    assert (Hlt : (a <? maxAttempts)%nat = true) by (apply Nat.ltb_lt; lia);
    rewrite Hlt; simpl.
  - replace (S a) with k by lia. rewrite Hk. reflexivity.
  - destruct (Hpend (S a)) as (q & Hq & _); [lia|]. rewrite Hq. cbn [bind].
    apply IH; [lia | lia | exact Hq].
Qed.

(** The fuel given by [hrStep] is enough: once [maxAttempts] is within
    reach, one more unit of fuel changes nothing. *)
Lemma pollLoop_fuel (w : World) (fuel : nat) :
  forall s a, (maxAttempts <= a + fuel)%nat ->
    pollLoop w (S fuel) s a = pollLoop w fuel s a.
Proof.
  induction fuel as [|fuel IH]; intros s a Hle.
  - simpl. assert (Hge : (a <? maxAttempts)%nat = false) by (apply Nat.ltb_ge; lia).
    rewrite Hge, andb_false_r. reflexivity.
  - change (pollLoop w (S (S fuel)) s a) with
      (if isPending s && (a <? maxAttempts)%nat
       then bind (runs_get w (S a)) (fun s' => pollLoop w (S fuel) s' (S a))
       else Returned (s, a)).
    change (pollLoop w (S fuel) s a) with
      (if isPending s && (a <? maxAttempts)%nat
       then bind (runs_get w (S a)) (fun s' => pollLoop w fuel s' (S a))
       else Returned (s, a)).
    destruct (isPending s && (a <? maxAttempts)%nat); [|reflexivity].
    destruct (runs_get w (S a)) as [s'|]; [|reflexivity].
    cbn [bind]. apply IH. lia.
Qed.

Lemma first_status (w : World) (k : nat) (s : RunStatus) :
  pendingUntil w k -> runs_get w k = Returned s ->
  exists s0, runs_get w 0 = Returned s0.
Proof.
  intros Hpend Hk. destruct k as [|k]; [eauto|].
  destruct (Hpend 0%nat) as (s0 & Hs0 & _); [lia|eauto].
Qed.

(** What is left of the [try] block once the run has been submitted. *)
Lemma hrStepTry_submitted (w : World) (input : PipelineInput) (t r : string) :
  submitted w t r ->
  hrStepTry w input =
  (let* runStatus := runs_get w 0 in
   let* (runStatus, attempts) := pollLoop w maxAttempts runStatus 0 in
   if (maxAttempts <=? attempts)%nat then Returned (fallbackHRStep input) else
   if match runStatus with failed | cancelled => true | _ => false end then
     Returned (fallbackHRStep input)
   else
   let* messages := messages_list w in
   let assistantMessages :=
     List.filter (fun m => String.eqb (role m) "assistant") messages in
   if (length assistantMessages =? 0)%nat then Returned (fallbackHRStep input) else
   let response := responseText assistantMessages in
   if JS.isEmpty response then Returned (fallbackHRStep input) else
   Returned (advisoryResult input response t r)).
Proof.
  intros (Hend & Hagent & Hnew & Hcred & Hclient & Hthread & Hmsg & Hrun).
  unfold hrStepTry.
  rewrite Hend, Hagent, Hnew, Hcred, Hclient, Hthread, Hmsg, Hrun. reflexivity.
Qed.

(** A run that is seen settled, neither failed nor cancelled, by a status
    call before the ceiling, with a non-empty answer of the assistant,
    gives the advisory result. *)
Lemma hrStep_advisory_success (w : World) (input : PipelineInput)
    (t r : string) (k : nat) (s : RunStatus) (messages : list ThreadMessage) :
  submitted w t r ->
  pendingUntil w k ->
  runs_get w k = Returned s ->
  isPending s = false -> s <> failed -> s <> cancelled ->
  (k < maxAttempts)%nat ->
  messages_list w = Returned messages ->
  let response :=
    responseText (List.filter (fun m => String.eqb (role m) "assistant") messages) in
  JS.isEmpty response = false ->
  hrStep w input = advisoryResult input response t r.
Proof.
  intros Hsub Hpend Hk Hs Hnf Hnc Hlt Hmsgs response Hresp.
  unfold hrStep. rewrite (hrStepTry_submitted w input t r Hsub).
  destruct (first_status w k s Hpend Hk) as (s0 & Hs0). rewrite Hs0. cbn [bind].
  rewrite (pollLoop_reaches w k s Hpend Hk ltac:(lia) (or_introl Hs) k 0%nat s0 maxAttempts
             ltac:(lia) ltac:(lia) Hs0).
  cbn [bind].
  assert (Hle : (maxAttempts <=? k)%nat = false) by (apply Nat.leb_gt; lia).
  rewrite Hle.
  assert (Hfc : match s with failed | cancelled => true | _ => false end = false)
    by (destruct s; congruence).
  rewrite Hfc, Hmsgs. cbn [bind]. fold response.
  destruct (List.filter _ messages) eqn:Hfilter.
  - subst response. simpl in Hresp. discriminate.
  - simpl length. simpl Nat.eqb. cbv iota. rewrite Hresp. reflexivity.
Qed.

(** Sixty pending statuses (the first call and 59 polls) end in the
    timeout branch, whatever the sixtieth poll returns. *)
Lemma hrStep_timeout (w : World) (input : PipelineInput) (t r : string) :
  submitted w t r ->
  pendingUntil w maxAttempts ->
  hrStep w input = fallbackHRStep input.
Proof.
  intros Hsub Hpend.
  unfold hrStep. rewrite (hrStepTry_submitted w input t r Hsub).
  destruct (Hpend 0%nat) as (s0 & Hs0 & _); [unfold maxAttempts; lia|].
  rewrite Hs0. cbn [bind].
  destruct (runs_get w maxAttempts) as [s|] eqn:Hlast.
  - rewrite (pollLoop_reaches w maxAttempts s Hpend Hlast ltac:(lia) (or_intror eq_refl)
               maxAttempts 0%nat s0 maxAttempts ltac:(lia) ltac:(lia) Hs0).
    cbn [bind]. rewrite Nat.leb_refl. reflexivity.
  - rewrite (pollLoop_throws w maxAttempts Hpend Hlast ltac:(lia)
               (pred maxAttempts) 0%nat s0 maxAttempts); try reflexivity;
      unfold maxAttempts; simpl; try lia; exact Hs0.
Qed.

(** A run seen failed or cancelled before the ceiling ends in the fallback. *)
Lemma hrStep_run_failed (w : World) (input : PipelineInput)
    (t r : string) (k : nat) (s : RunStatus) :
  submitted w t r ->
  pendingUntil w k ->
  runs_get w k = Returned s ->
  s = failed \/ s = cancelled ->
  (k <= maxAttempts)%nat ->
  hrStep w input = fallbackHRStep input.
Proof.
  intros Hsub Hpend Hk Hs Hle.
  unfold hrStep. rewrite (hrStepTry_submitted w input t r Hsub).
  destruct (first_status w k s Hpend Hk) as (s0 & Hs0). rewrite Hs0. cbn [bind].
  assert (Hnp : isPending s = false) by (destruct Hs; subst s; reflexivity).
  rewrite (pollLoop_reaches w k s Hpend Hk Hle (or_introl Hnp) k 0%nat s0 maxAttempts
             ltac:(lia) Hle Hs0).
  cbn [bind]. destruct (maxAttempts <=? k)%nat; [reflexivity|].
  destruct Hs; subst s; reflexivity.
Qed.

(** An exception of a status call ends in the fallback. *)
Lemma hrStep_poll_throws (w : World) (input : PipelineInput) (t r : string) (k : nat) :
  submitted w t r ->
  pendingUntil w k ->
  runs_get w k = Thrown ->
  (k <= maxAttempts)%nat ->
  hrStep w input = fallbackHRStep input.
Proof.
  intros Hsub Hpend Hk Hle.
  unfold hrStep. rewrite (hrStepTry_submitted w input t r Hsub).
  destruct k as [|k].
  - rewrite Hk. reflexivity.
  - destruct (Hpend 0%nat) as (s0 & Hs0 & _); [lia|]. rewrite Hs0. cbn [bind].
    rewrite (pollLoop_throws w (S k) Hpend Hk Hle k 0%nat s0 maxAttempts);
      try reflexivity; try lia; exact Hs0.
Qed.

(** The advisory path is left before any call to the service. *)
Lemma hrStep_not_used (w : World) (input : PipelineInput) :
  advisoryNotUsed w -> hrStep w input = fallbackHRStep input.
Proof.
  unfold advisoryNotUsed, hrStep, hrStepTry.
  intros [H|[H|H]].
  - rewrite H. reflexivity.
  - rewrite H, orb_true_r. reflexivity.
  - rewrite H.
    destruct (negb (truthy (AZURE_AI_PROJECT_ENDPOINT w)) ||
              negb (truthy (AZURE_AI_AGENT_ID w))); [reflexivity|].
    destruct (newDefaultAzureCredential w); reflexivity.
Qed.

(** *** The two ends of the HR step *)

(** Among the status calls before [n], either all show a pending run, or
    there is a first one that does not. *)
Lemma first_stop (w : World) (n : nat) :
  pendingUntil w n \/
  exists k, (k < n)%nat /\ pendingUntil w k /\
            (runs_get w k = Thrown \/
             exists s, runs_get w k = Returned s /\ isPending s = false).
Proof.
  induction n as [|n IH].
  - left. intros i Hi. lia.
  - destruct IH as [Hpend | (k & Hk & Hrest)].
    + destruct (runs_get w n) as [s|] eqn:Hn.
      * destruct (isPending s) eqn:Hs.
        -- left. intros i Hi. destruct (Nat.eq_dec i n) as [->|Hne]; [eauto|].
           apply Hpend. lia.
        -- right. exists n. split; [lia|]. split; [exact Hpend|]. right. eauto.
      * right. exists n. split; [lia|]. split; [exact Hpend|]. left. exact Hn.
    + right. exists k. split; [lia | exact Hrest].
Qed.

Lemma settledAt_not_pending (w : World) (k n : nat) (s : RunStatus) :
  settledAt w k s -> pendingUntil w n -> (n <= k)%nat.
Proof.
  intros (_ & Hk & Hs) Hpend. destruct (le_lt_dec n k) as [|Hlt]; [assumption|].
  destruct (Hpend k Hlt) as (s' & Hs' & Hp). congruence.
Qed.

Lemma settledAt_unique (w : World) (k k' : nat) (s s' : RunStatus) :
  settledAt w k s -> settledAt w k' s' -> k = k' /\ s = s'.
Proof.
  intros H H'.
  pose proof (settledAt_not_pending w k k' s H (proj1 H')).
  pose proof (settledAt_not_pending w k' k s' H' (proj1 H)).
  assert (k = k') by lia. subst k'. split; [reflexivity|].
  destruct H as (_ & Hk & _), H' as (_ & Hk' & _). congruence.
Qed.

(** The result of [hrStep] once the run is seen settled before the ceiling:
    what the code after the loop makes of the status and of the messages. *)
Lemma hrStep_settled (w : World) (input : PipelineInput)
    (t r : string) (k : nat) (s : RunStatus) :
  submitted w t r -> settledAt w k s -> (k < maxAttempts)%nat ->
  hrStep w input =
  match
    (if match s with failed | cancelled => true | _ => false end then
       Returned (fallbackHRStep input)
     else
     let* messages := messages_list w in
     let assistantMessages :=
       List.filter (fun m => String.eqb (role m) "assistant") messages in
     if (length assistantMessages =? 0)%nat then Returned (fallbackHRStep input) else
     let response := responseText assistantMessages in
     if JS.isEmpty response then Returned (fallbackHRStep input) else
     Returned (advisoryResult input response t r))
  with
  | Returned result => result
  | Thrown => fallbackHRStep input
  end.
Proof.
  intros Hsub (Hpend & Hk & Hs) Hlt.
  unfold hrStep. rewrite (hrStepTry_submitted w input t r Hsub).
  destruct (first_status w k s Hpend Hk) as (s0 & Hs0). rewrite Hs0. cbn [bind].
  rewrite (pollLoop_reaches w k s Hpend Hk ltac:(lia) (or_introl Hs) k 0%nat s0 maxAttempts
             ltac:(lia) ltac:(lia) Hs0).
  cbn [bind].
  assert (Hle : (maxAttempts <=? k)%nat = false) by (apply Nat.leb_gt; lia).
  rewrite Hle. reflexivity.
Qed.

(** An exception while the messages are listed ends in the fallback. *)
Lemma hrStep_retrieve_throws (w : World) (input : PipelineInput)
    (t r : string) (k : nat) (s : RunStatus) :
  submitted w t r -> settledAt w k s -> (k < maxAttempts)%nat ->
  messages_list w = Thrown ->
  hrStep w input = fallbackHRStep input.
Proof.
  intros Hsub Hset Hlt Hmsgs.
  rewrite (hrStep_settled w input t r k s Hsub Hset Hlt), Hmsgs.
  destruct s; reflexivity.
Qed.

(** No assistant message, or one without a text at its head, ends in the
    fallback. *)
Lemma hrStep_empty_response (w : World) (input : PipelineInput)
    (t r : string) (k : nat) (s : RunStatus) (messages : list ThreadMessage) :
  submitted w t r -> settledAt w k s -> (k < maxAttempts)%nat ->
  messages_list w = Returned messages ->
  JS.isEmpty
    (responseText (List.filter (fun m => String.eqb (role m) "assistant") messages))
    = true ->
  hrStep w input = fallbackHRStep input.
Proof.
  intros Hsub Hset Hlt Hmsgs Hempty.
  rewrite (hrStep_settled w input t r k s Hsub Hset Hlt), Hmsgs. cbn [bind].
  rewrite Hempty.
  destruct s; try reflexivity;
    destruct (length _ =? 0)%nat; reflexivity.
Qed.

(** An exception before the run is submitted ends in the fallback. *)
Lemma hrStep_submit_throws (w : World) (input : PipelineInput) :
  newDefaultAzureCredential w = Thrown \/ newAIProjectClient w = Thrown \/
  threads_create w = Thrown \/ messages_create w = Thrown \/ runs_create w = Thrown ->
  hrStep w input = fallbackHRStep input.
Proof.
  intros H. destruct (hrStep_cases w input) as [Hf|(response & t & r & _ & Ht & Hr & Ha)];
    [exact Hf|].
  exfalso. revert Ha. unfold hrStep, hrStepTry.
  destruct (fallbackHRStep_ids input) as [Hid _].
  destruct (advisoryResult_ids input response t r) as [Hid' _].
  assert (Hne : fallbackHRStep input <> advisoryResult input response t r)
    by (intros Heq; rewrite Heq in Hid; congruence).
  destruct (negb (truthy (AZURE_AI_PROJECT_ENDPOINT w)) ||
            negb (truthy (AZURE_AI_AGENT_ID w))); [exact Hne|].
  destruct (newDefaultAzureCredential w) eqn:H1; cbn [bind]; [|exact Hne].
  destruct (negb (validateAzureCredentials w)); [exact Hne|].
  destruct (newAIProjectClient w) eqn:H2; cbn [bind]; [|exact Hne].
  rewrite Ht. cbn [bind].
  destruct (messages_create w) eqn:H3; cbn [bind]; [|exact Hne].
  destruct H as [H|[H|[H|[H|H]]]]; congruence.
Qed.

(** Either the advisory path runs to its end, and [hrStep] returns the
    advisory result; or it does not, for whatever reason, and [hrStep]
    returns the fallback result. *)
Lemma hrStep_advisory_or_fallback (w : World) (input : PipelineInput) :
  (exists response t r,
     advisorySucceeds w response t r /\
     hrStep w input = advisoryResult input response t r) \/
  ((forall response t r, ~ advisorySucceeds w response t r) /\
   hrStep w input = fallbackHRStep input).
Proof.
  destruct (truthy (AZURE_AI_PROJECT_ENDPOINT w)) eqn:He.
  2:{ right. split; [intros ? ? ? ((H & _) & _); congruence|].
      apply hrStep_not_used. left. exact He. }
  destruct (truthy (AZURE_AI_AGENT_ID w)) eqn:Ha.
  2:{ right. split; [intros ? ? ? ((_ & H & _) & _); congruence|].
      apply hrStep_not_used. right. left. exact Ha. }
  destruct (newDefaultAzureCredential w) as [[]|] eqn:Hn.
  2:{ right. split; [intros ? ? ? ((_ & _ & H & _) & _); congruence|].
      apply hrStep_submit_throws. auto. }
  destruct (validateAzureCredentials w) eqn:Hv.
  2:{ right. split; [intros ? ? ? ((_ & _ & _ & H & _) & _); congruence|].
      apply hrStep_not_used. right. right. exact Hv. }
  destruct (newAIProjectClient w) as [[]|] eqn:Hc.
  2:{ right. split; [intros ? ? ? ((_ & _ & _ & _ & H & _) & _); congruence|].
      apply hrStep_submit_throws. auto. }
  destruct (threads_create w) as [t|] eqn:Ht.
  2:{ right. split; [intros ? ? ? ((_ & _ & _ & _ & _ & H & _) & _); congruence|].
      apply hrStep_submit_throws. auto. }
  destruct (messages_create w) as [[]|] eqn:Hm.
  2:{ right. split; [intros ? ? ? ((_ & _ & _ & _ & _ & _ & H & _) & _); congruence|].
      apply hrStep_submit_throws. auto. }
  destruct (runs_create w) as [r|] eqn:Hr.
  2:{ right. split; [intros ? ? ? ((_ & _ & _ & _ & _ & _ & _ & H) & _); congruence|].
      apply hrStep_submit_throws. auto 6. }
  assert (Hsub : submitted w t r) by (repeat split; assumption).
  destruct (first_stop w maxAttempts)
    as [Hpend | (k & Hk & Hpendk & [Hthrown | (s & Hs & Hnp)])].
  - (* the ceiling is reached *)
    right. split; [|exact (hrStep_timeout w input t r Hsub Hpend)].
    intros response t' r' (_ & k' & s' & msgs & Hk' & Hset & _).
    pose proof (settledAt_not_pending w k' maxAttempts s' Hset Hpend). lia.
  - (* a status call throws *)
    right. split; [|apply (hrStep_poll_throws w input t r k Hsub Hpendk Hthrown); lia].
    intros response t' r' (_ & k' & s' & msgs & Hk' & (Hp' & Hs' & Hn') & _).
    destruct (lt_eq_lt_dec k k') as [[Hlt|Heq]|Hgt].
    + destruct (Hp' k Hlt) as (q & Hq & _). congruence.
    + subst k'. congruence.
    + destruct (Hpendk k' Hgt) as (q & Hq & Hpq). congruence.
  - (* the run is seen settled *)
    assert (Hset : settledAt w k s) by (repeat split; assumption).
    assert (Hfc : (s = failed \/ s = cancelled) \/ (s <> failed /\ s <> cancelled))
      by (destruct s; auto; right; split; discriminate).
    destruct Hfc as [Hfc | [Hnf Hnc]].
    { right. split; [|apply (hrStep_run_failed w input t r k s Hsub Hpendk Hs Hfc); lia].
      intros response t' r' (_ & k' & s' & msgs & _ & Hset' & Hnf' & Hnc' & _).
      destruct (settledAt_unique w k k' s s' Hset Hset') as [_ <-].
      destruct Hfc; contradiction. }
    destruct (messages_list w) as [messages|] eqn:Hmsgs.
    2:{ right. split; [|exact (hrStep_retrieve_throws w input t r k s Hsub Hset Hk Hmsgs)].
        intros response t' r' (_ & k' & s' & msgs & _ & _ & _ & _ & H & _). congruence. }
    destruct (JS.isEmpty
                (responseText
                   (List.filter (fun m => String.eqb (role m) "assistant") messages)))
      eqn:Hempty.
    + right.
      split; [|exact (hrStep_empty_response w input t r k s messages
                        Hsub Hset Hk Hmsgs Hempty)].
      intros response t' r' (_ & k' & s' & msgs & _ & _ & _ & _ & H & -> & Hne).
      assert (msgs = messages) by congruence. subst msgs. congruence.
    + left. eexists _, t, r. split.
      * split; [exact Hsub|]. exists k, s, messages.
        repeat split; try assumption; apply Hset.
      * exact (hrStep_advisory_success w input t r k s messages
                 Hsub Hpendk Hs Hnp Hnf Hnc Hk Hmsgs Hempty).
Qed.

(** C5. For every world and every input, [hrStep] returns a complete
    result and no exception of the [try] block reaches the caller.  When
    the advisory path runs to its end the result is built from the answer of
    the assistant and carries the thread id and the run id; in every other
    case (configuration absent, credential failure, an exception of a call,
    a failed or cancelled run, the ceiling reached, no text in the answer)
    the result is that of the deterministic fallback, which depends on the
    input alone and carries neither id. *)
Theorem hrStep_never_throws (w : World) (input : PipelineInput) :
  (exists response t r,
     advisorySucceeds w response t r /\
     hrStep w input = advisoryResult input response t r /\
     threadId (hrStep w input) = Some t /\
     runId (hrStep w input) = Some r) \/
  ((forall response t r, ~ advisorySucceeds w response t r) /\
   hrStep w input = fallbackHRStep input /\
   threadId (hrStep w input) = None /\
   runId (hrStep w input) = None).
Proof.
  destruct (hrStep_advisory_or_fallback w input)
    as [(response & t & r & Hok & H) | (Hnot & H)].
  - left. exists response, t, r. rewrite H.
    destruct (advisoryResult_ids input response t r) as [Ht Hr]. auto.
  - right. rewrite H. destruct (fallbackHRStep_ids input) as [Ht Hr]. auto.
Qed.

(** *** The rule-only classification of the fallback *)

Lemma some_Exists {A} (p : A -> bool) (l : list A) :
  JS.some p l = true <-> Exists (fun x => p x = true) l.
Proof.
  unfold JS.some. rewrite existsb_exists, Exists_exists.
  split; intros (x & Hx & Hp); exists x; split; auto; apply list_elem_of_In; exact Hx.
Qed.

Lemma some_prohibitedOrAllergen (menu : list string) :
  JS.some containsTobacco menu || JS.some containsMajorAllergens menu = true <->
  Exists Spec.prohibitedOrAllergen menu.
Proof.
  rewrite orb_true_iff, !some_Exists. unfold Spec.prohibitedOrAllergen.
  rewrite !Exists_exists. split.
  - intros [(x & Hx & H)|(x & Hx & H)]; exists x; auto.
  - intros (x & Hx & [H|H]); [left|right]; exists x; auto.
Qed.

Lemma fallbackHRStep_riskLevel (input : PipelineInput) :
  riskLevel (fallbackHRStep input) =
  let menu := lunchMenu input in
  if JS.some containsTobacco menu || JS.some containsMajorAllergens menu then high
  else if JS.some containsHardLiquor menu ||
          (0 <? length (validateInclusivity (fst (sanitizeMenuBasedOnPolicy menu))))%nat
       then medium
       else low.
Proof.
  unfold fallbackHRStep. destruct (sanitizeMenuBasedOnPolicy (lunchMenu input)). reflexivity.
Qed.

Lemma length_pos_nonnil {A} (l : list A) : (0 <? length l)%nat = true <-> l <> [].
Proof.
  destruct l; simpl; split; intros H; try discriminate; try reflexivity.
  contradiction.
Qed.

Lemma fallbackHRStep_ruleOnlyRisk (input : PipelineInput) :
  Spec.ruleOnlyRisk (lunchMenu input) (riskLevel (fallbackHRStep input)).
Proof.
  rewrite fallbackHRStep_riskLevel. cbv zeta.
  pose proof (some_prohibitedOrAllergen (lunchMenu input)) as Hhigh.
  destruct (JS.some containsTobacco (lunchMenu input) ||
            JS.some containsMajorAllergens (lunchMenu input)).
  - apply Spec.RiskHigh. apply Hhigh. reflexivity.
  - assert (Hnot : ~ Exists Spec.prohibitedOrAllergen (lunchMenu input))
      by (intros H; apply Hhigh in H; discriminate).
    pose proof (some_Exists containsHardLiquor (lunchMenu input)) as Hliq.
    pose proof (length_pos_nonnil
                  (validateInclusivity (fst (sanitizeMenuBasedOnPolicy (lunchMenu input)))))
      as Hinc.
    destruct (JS.some containsHardLiquor (lunchMenu input)); simpl.
    + apply Spec.RiskMedium; [exact Hnot|]. left. apply Hliq. reflexivity.
    + destruct (0 <? length _)%nat.
      * apply Spec.RiskMedium; [exact Hnot|]. right. apply Hinc. reflexivity.
      * apply Spec.RiskLow; [exact Hnot | |].
        -- intros H. apply Hliq in H. discriminate.
        -- destruct (validateInclusivity _); [reflexivity|].
           exfalso. assert (false = true) by (apply Hinc; discriminate). discriminate.
Qed.

(** The three cases of the rule exclude one another. *)
Lemma ruleOnlyRisk_functional (menu : list string) (r1 r2 : RiskLevel) :
  Spec.ruleOnlyRisk menu r1 -> Spec.ruleOnlyRisk menu r2 -> r1 = r2.
Proof.
  intros H1 H2. destruct H1, H2; try reflexivity; try contradiction;
    repeat match goal with
           | H : _ \/ _ |- _ => destruct H
           end; contradiction.
Qed.

(** C2. For every menu, when the advisory path is not used (no endpoint, no
    agent id, or the credential validation fails), the result of [hrStep] is
    the result of the fallback: its risk level is the rule-only
    classification of section 4.6 (high for a prohibited substance or a major
    allergen among the raw items; else medium for hard liquor among the raw
    items or an inclusivity issue of the sanitized menu; else low), and it
    carries neither thread id nor run id. *)
Theorem hrStep_fallback_equivalence (w : World) (input : PipelineInput) :
  advisoryNotUsed w ->
  hrStep w input = fallbackHRStep input /\
  Spec.ruleOnlyRisk (lunchMenu input) (riskLevel (hrStep w input)) /\
  (forall risk, Spec.ruleOnlyRisk (lunchMenu input) risk ->
                riskLevel (hrStep w input) = risk) /\
  threadId (hrStep w input) = None /\
  runId (hrStep w input) = None.
Proof.
  intros Hnot. rewrite (hrStep_not_used w input Hnot).
  pose proof (fallbackHRStep_ruleOnlyRisk input) as Hrule.
  destruct (fallbackHRStep_ids input) as [Ht Hr].
  repeat split; auto.
  intros risk Hrisk. eapply ruleOnlyRisk_functional; eassumption.
Qed.

Lemma hrStep_fallback_equivalence_witness :
  advisoryNotUsed Scenario.unconfigured /\
  hrStep Scenario.unconfigured Scenario.riskyLunch = fallbackHRStep Scenario.riskyLunch /\
  riskLevel (hrStep Scenario.unconfigured Scenario.riskyLunch) = high /\
  threadId (hrStep Scenario.unconfigured Scenario.riskyLunch) = None /\
  runId (hrStep Scenario.unconfigured Scenario.riskyLunch) = None.
Proof.
  assert (Hnot : advisoryNotUsed Scenario.unconfigured) by (left; reflexivity).
  split; [exact Hnot|].
  destruct (hrStep_fallback_equivalence Scenario.unconfigured Scenario.riskyLunch Hnot)
    as (Heq & _ & Hrisk & Ht & Hr).
  split; [exact Heq|]. split; [|split; [exact Ht | exact Hr]].
  apply Hrisk. apply Spec.RiskHigh.
  apply Exists_cons_hd. right. vm_compute. reflexivity.
Defined.

(** C4. A run that completes exactly at the sixtieth poll is treated as
    timed out: in the world whose status calls 0 .. 59 report [queued] and
    whose sixtieth poll reports [completed], with a non-empty answer of the
    assistant in the thread, [hrStep] returns the fallback result without
    thread id and run id.  One poll earlier, the advisory result is
    returned. *)
Theorem hrStep_completed_at_ceiling_times_out :
  let answer := "Low risk. Vegetarian options are available." in
  let w := Scenario.completesAt 60 answer in
  submitted w "thread_abc123" "run_xyz789" /\
  pendingUntil w 60 /\
  runs_get w 60 = Returned completed /\
  messages_list w = Returned (Scenario.assistantSays answer) /\
  hrStep w Scenario.safeLunch = fallbackHRStep Scenario.safeLunch /\
  threadId (hrStep w Scenario.safeLunch) = None /\
  runId (hrStep w Scenario.safeLunch) = None /\
  hrStep (Scenario.completesAt 59 answer) Scenario.safeLunch =
    advisoryResult Scenario.safeLunch answer "thread_abc123" "run_xyz789".
Proof.
  intros answer w.
  assert (Hsub : submitted w "thread_abc123" "run_xyz789")
    by (repeat split; reflexivity).
  assert (Hpend : pendingUntil w 60).
  { intros i Hi. exists queued. split; [|reflexivity].
    subst w. simpl. apply Nat.ltb_lt in Hi. rewrite Hi. reflexivity. }
  assert (Hfall : hrStep w Scenario.safeLunch = fallbackHRStep Scenario.safeLunch)
    by (exact (hrStep_timeout w Scenario.safeLunch _ _ Hsub Hpend)).
  split; [exact Hsub|]. split; [exact Hpend|].
  split; [reflexivity|]. split; [reflexivity|].
  split; [exact Hfall|]. rewrite Hfall.
  split; [reflexivity|]. split; [reflexivity|].
  vm_compute. reflexivity.
Qed.

(** *** The response interpreter *)

Lemma mentions_some (response : string) (keywords : list string) :
  Exists (Spec.mentions response) keywords <->
  JS.some (JS.includes (JS.toLowerCase response)) keywords = true.
Proof. rewrite some_Exists. reflexivity. Qed.

Lemma parseRiskLevel_keywords (response : string) :
  parseRiskLevel response =
  if JS.some (JS.includes (JS.toLowerCase response)) Spec.highKeywords then high
  else if JS.some (JS.includes (JS.toLowerCase response)) Spec.mediumKeywords then medium
  else low.
Proof.
  unfold parseRiskLevel, JS.some, Spec.highKeywords, Spec.mediumKeywords. cbv zeta.
  cbn [existsb]. rewrite !orb_false_r, !orb_assoc. reflexivity.
Qed.

Lemma parseRiskLevel_high (response : string) :
  parseRiskLevel response = high <-> Exists (Spec.mentions response) Spec.highKeywords.
Proof.
  rewrite mentions_some, parseRiskLevel_keywords.
  destruct (JS.some _ Spec.highKeywords); [tauto|].
  destruct (JS.some _ Spec.mediumKeywords); split; discriminate.
Qed.

Lemma parseRiskLevel_medium (response : string) :
  parseRiskLevel response = medium <->
  ~ Exists (Spec.mentions response) Spec.highKeywords /\
  Exists (Spec.mentions response) Spec.mediumKeywords.
Proof.
  rewrite !mentions_some, parseRiskLevel_keywords.
  destruct (JS.some _ Spec.highKeywords).
  - split; [discriminate|]. intros [H _]. contradiction H. reflexivity.
  - destruct (JS.some _ Spec.mediumKeywords); split; try discriminate; auto.
    intros [_ H]. discriminate.
Qed.

(** C3, as the code has it.  A response that mentions tobacco, hard liquor,
    peanut, shellfish, high risk or dangerous is classified high; a response
    that mentions none of these but mentions inclusivity (or medium risk,
    moderate, dietary restriction, allergen) is classified medium, never
    low; on the advisory path the risk level is the classification of the
    response alone.  On the fallback path, a menu with an item that contains
    a major allergen (peanut, shellfish, tree nut) or a tobacco keyword is
    classified high, and a menu without such an item whose sanitized menu
    has an inclusivity issue is classified medium, never low. *)
Theorem risk_classification_precedence :
  (forall response,
     Exists (Spec.mentions response) Spec.highKeywords ->
     parseRiskLevel response = high) /\
  (forall response,
     ~ Exists (Spec.mentions response) Spec.highKeywords ->
     Exists (Spec.mentions response) Spec.mediumKeywords ->
     parseRiskLevel response = medium) /\
  (forall input response t r,
     riskLevel (advisoryResult input response t r) = parseRiskLevel response) /\
  (forall input,
     Exists Spec.prohibitedOrAllergen (lunchMenu input) ->
     riskLevel (fallbackHRStep input) = high) /\
  (forall input,
     ~ Exists Spec.prohibitedOrAllergen (lunchMenu input) ->
     validateInclusivity (fst (sanitizeMenuBasedOnPolicy (lunchMenu input))) <> [] ->
     riskLevel (fallbackHRStep input) = medium).
Proof.
  split; [intros response H; apply parseRiskLevel_high; exact H|].
  split; [intros response Hh Hm; apply parseRiskLevel_medium; auto|].
  split; [apply advisoryResult_riskLevel|].
  split; intros input.
  - intros H. eapply ruleOnlyRisk_functional;
      [apply fallbackHRStep_ruleOnlyRisk | apply Spec.RiskHigh; exact H].
  - intros Hn Hi. eapply ruleOnlyRisk_functional;
      [apply fallbackHRStep_ruleOnlyRisk | apply Spec.RiskMedium; auto].
Qed.

Lemma risk_classification_precedence_witness :
  let response := "HIGH allergen risk: the cookies contain Peanuts." in
  Exists (Spec.mentions response) Spec.highKeywords /\
  parseRiskLevel response = high /\
  Exists Spec.prohibitedOrAllergen (lunchMenu Scenario.riskyLunch) /\
  riskLevel (fallbackHRStep Scenario.riskyLunch) = high.
Proof.
  intros response.
  destruct risk_classification_precedence as (Hhigh & _ & _ & Hmenu & _).
  assert (Hmentions : Exists (Spec.mentions response) Spec.highKeywords).
  { apply Exists_cons_tl, Exists_cons_tl, Exists_cons_hd. vm_compute. reflexivity. }
  assert (Hitem : Exists Spec.prohibitedOrAllergen (lunchMenu Scenario.riskyLunch)).
  { apply Exists_cons_hd. right. vm_compute. reflexivity. }
  split; [exact Hmentions|]. split; [apply Hhigh; exact Hmentions|].
  split; [exact Hitem|]. apply Hmenu. exact Hitem.
Defined.

(** C3, as the specification states it, fails.  A response that names a
    tree nut, or a cigarette, contains a major allergen, or a prohibited
    substance, and is classified low; and on the advisory path a menu with
    peanut and shellfish items is classified low when the answer of the
    assistant names no keyword. *)
Lemma risk_classification_below_high :
  (containsMajorAllergens "Item 3 is a mixed tree nut brittle" = true /\
   parseRiskLevel "Item 3 is a mixed tree nut brittle" = low) /\
  (containsTobacco "Item 2 is a pack of cigarettes" = true /\
   parseRiskLevel "Item 2 is a pack of cigarettes" = low) /\
  (Exists Spec.prohibitedOrAllergen (lunchMenu Scenario.riskyLunch) /\
   riskLevel (hrStep (Scenario.completesAt 1 "Low risk. No concerns found.")
                Scenario.riskyLunch) = low).
Proof.
  repeat split; try (vm_compute; reflexivity).
  apply Exists_cons_hd. right. vm_compute. reflexivity.
Qed.

(** ** The finance step *)

Lemma financeStep_fields (env : Env) (e : EmployeeStepResult) :
  let rate :=
    Number.or (Number.Number (LUNCH_BUDGET_PER_PERSON env)) (Number.ofNat 15) in
  costPerPerson (financeStep env e) = rate /\
  budget (financeStep env e) = Number.mul (Number.Number (HEADCOUNT env)) rate /\
  totalCost (financeStep env e) =
    Number.mul (Number.ofNat (length (normalizedEmployees e))) rate /\
  withinBudget (financeStep env e) =
    Number.leb (totalCost (financeStep env e)) (budget (financeStep env e)).
Proof. repeat split; reflexivity. Qed.


Lemma ofNat_le (n m : nat) :
  (n <= m)%nat ->
  (Q2Qc (inject_Z (Z.of_nat n)) <= Q2Qc (inject_Z (Z.of_nat m)))%Qc.
Proof.
  intros H. unfold Qcle. simpl. rewrite !Qred_correct.
  rewrite <- Zle_Qle. lia.
Qed.

Lemma leb_Num (x y : Qc) : Number.leb (Num x) (Num y) = true <-> (x <= y)%Qc.
Proof. simpl. apply Qle_bool_iff. Qed.

Lemma gtb_Num (x y : Qc) : Number.gtb (Num x) (Num y) = true <-> (y < x)%Qc.
Proof.
  simpl. rewrite negb_true_iff, <- not_true_iff_false, Qle_bool_iff.
  split; [apply Qnot_le_lt | apply Qlt_not_le].
Qed.

(** With a configured, non-negative [HEADCOUNT] and a positive rate, an
    empty list of employees costs nothing and is within budget. *)
Lemma financeStep_zero_headcount (env : Env) (h rate : Qc) :
  HEADCOUNT env = Some (Num h) -> (0 <= h)%Qc ->
  costPerPerson (financeStep env {| normalizedEmployees := [] |}) = Num rate ->
  (0 < rate)%Qc ->
  totalCost (financeStep env {| normalizedEmployees := [] |}) = Num 0 /\
  withinBudget (financeStep env {| normalizedEmployees := [] |}) = true.
Proof.
  intros Hh Hpos Hrate Hr.
  destruct (financeStep_fields env {| normalizedEmployees := [] |})
    as (Hc & Hb & Ht & Hw).
  cbv zeta in *. rewrite Hc in Hrate. rewrite Hrate in Hb, Ht.
  rewrite Hh in Hb.
  change (budget (financeStep env {| normalizedEmployees := [] |}) = Num (h * rate))
    in Hb.
  change (totalCost (financeStep env {| normalizedEmployees := [] |}) =
          Num (Q2Qc 0 * rate)) in Ht.
  rewrite Qcmult_0_l in Ht. split; [exact Ht|].
  rewrite Hw, Ht, Hb. apply leb_Num.
  apply Qcmult_nonneg_nonneg; [exact Hpos | apply Qclt_le_weak; exact Hr].
Qed.

(** C8. [financeStep] returns for every configuration; but when the process
    runs without [HEADCOUNT], the budget is [NaN] and an empty list of
    employees, of total cost zero, is reported over budget. *)
Theorem financeStep_zero_headcount_without_HEADCOUNT :
  let result :=
    financeStep Scenario.noHeadcountEnv
      (employeeStep {| employees := ["  "; ""]; lunchMenu := ["Quinoa bowl"] |}) in
  totalCost result = Num 0 /\
  costPerPerson result = Number.ofNat 15 /\
  budget result = NaN /\
  withinBudget result = false.
Proof.
  intros result. subst result.
  split; [|split; [|split]]; vm_compute; reflexivity.
Qed.

(** C9. For every headcount, every positive rate and every budget limit:
    [withinBudget] is false exactly when [headcount * rate > budgetLimit],
    and more employees, for the same rate and limit, can turn
    [withinBudget] from true to false only. *)
Theorem withinBudget_threshold_antitone
    (env : Env) (e1 e2 : EmployeeStepResult) (rate limit : Qc) :
  costPerPerson (financeStep env e1) = Num rate ->
  (0 < rate)%Qc ->
  budget (financeStep env e1) = Num limit ->
  let headcount := Number.ofNat (length (normalizedEmployees e1)) in
  (withinBudget (financeStep env e1) = false <->
   Number.gtb (Number.mul headcount (Num rate)) (Num limit) = true) /\
  (withinBudget (financeStep env e1) = false <->
   (limit < Q2Qc (inject_Z (Z.of_nat (length (normalizedEmployees e1)))) * rate)%Qc) /\
  costPerPerson (financeStep env e2) = Num rate /\
  budget (financeStep env e2) = Num limit /\
  ((length (normalizedEmployees e1) <= length (normalizedEmployees e2))%nat ->
   withinBudget (financeStep env e2) = true ->
   withinBudget (financeStep env e1) = true).
Proof.
  intros Hrate Hpos Hlimit headcount.
  destruct (financeStep_fields env e1) as (Hc1 & Hb1 & Ht1 & Hw1).
  destruct (financeStep_fields env e2) as (Hc2 & Hb2 & Ht2 & Hw2).
  cbv zeta in *.
  assert (Hrate2 : costPerPerson (financeStep env e2) = Num rate) by congruence.
  assert (Hlimit2 : budget (financeStep env e2) = Num limit) by congruence.
  rewrite <- Hc1, Hrate in Ht1. rewrite <- Hc2, Hrate2 in Ht2.
  rewrite Ht1, Hlimit in Hw1. rewrite Ht2, Hlimit2 in Hw2.
  unfold Number.ofNat, Number.mul in Hw1, Hw2.
  assert (Hgt : withinBudget (financeStep env e1) = false <->
                Number.gtb (Number.mul headcount (Num rate)) (Num limit) = true).
  { rewrite Hw1. subst headcount. unfold Number.ofNat, Number.mul, Number.leb, Number.gtb.
    rewrite negb_true_iff. reflexivity. }
  split; [exact Hgt|].
  split; [rewrite Hgt; subst headcount; apply gtb_Num|].
  split; [exact Hrate2|]. split; [exact Hlimit2|].
  intros Hle H2. rewrite Hw2 in H2. rewrite Hw1.
  apply leb_Num in H2. apply leb_Num.
  eapply Qcle_trans; [|exact H2].
  apply Qcmult_le_compat_r; [apply ofNat_le; exact Hle | apply Qclt_le_weak; exact Hpos].
Qed.

Lemma withinBudget_threshold_antitone_witness :
  let env := Scenario.exampleEnv in
  let e1 := {| normalizedEmployees := ["Alice"; "Bob"] |} in
  let e2 := {| normalizedEmployees := ["Alice"; "Bob"; "Carol"] |} in
  let rate := Q2Qc (inject_Z 15) in
  let limit := Q2Qc (inject_Z 150) in
  costPerPerson (financeStep env e1) = Num rate /\
  (0 < rate)%Qc /\
  budget (financeStep env e1) = Num limit /\
  withinBudget (financeStep env e2) = true /\
  withinBudget (financeStep env e1) = true.
Proof.
  intros env e1 e2 rate limit.
  assert (Hrate : costPerPerson (financeStep env e1) = Num rate)
    by (vm_compute; reflexivity).
  assert (Hpos : (0 < rate)%Qc) by (vm_compute; reflexivity).
  assert (Hlimit : budget (financeStep env e1) = Num limit)
    by (vm_compute; reflexivity).
  assert (H2 : withinBudget (financeStep env e2) = true) by (vm_compute; reflexivity).
  split; [exact Hrate|]. split; [exact Hpos|]. split; [exact Hlimit|].
  split; [exact H2|].
  destruct (withinBudget_threshold_antitone env e1 e2 rate limit Hrate Hpos Hlimit)
    as (_ & _ & _ & _ & Hmono).
  apply Hmono; [simpl; lia | exact H2].
Defined.

(** ** The pipeline on the demo orders *)

(** Eight employees and a safe menu, with the variables of [.env.example]
    and no Azure configuration: cost 120 of 150, low risk, approved. *)
Example pipeline_demo1 :
  let result :=
    runPipeline (fun _ => "?") Scenario.unconfigured Scenario.exampleEnv Scenario.demo1 in
  length (normalizedEmployees (employee result)) = 8%nat /\
  riskLevel (hr result) = low /\
  totalCost (finance result) = Number.ofNat 120 /\
  budget (finance result) = Number.ofNat 150 /\
  withinBudget (finance result) = true /\
  approved (manager result) = true /\
  finalDecision (manager result) = "Lunch order fully approved".
Proof. vm_compute. repeat split; reflexivity. Qed.

(** Twelve employees and a menu with peanut and shellfish items: both items
    are removed, the risk is high, and the order is rejected. *)
Example pipeline_demo2 :
  let result :=
    runPipeline (fun _ => "?") Scenario.unconfigured Scenario.exampleEnv Scenario.demo2 in
  sanitizedMenu (hr result) =
    ["Fried chicken with high-sodium sauce"; "Dairy-based creamy soup";
     "Processed meat sandwiches"; "Soy sauce glazed salmon"] /\
  riskLevel (hr result) = high /\
  withinBudget (finance result) = false /\
  approved (manager result) = false /\
  finalDecision (manager result) =
    "Lunch order rejected due to high health/safety risk".
Proof. vm_compute. repeat split; reflexivity. Qed.

(** Without [HEADCOUNT] the safe order of the first demo is rejected for
    its budget. *)
Example pipeline_demo1_without_HEADCOUNT :
  let result :=
    runPipeline (fun _ => "?") Scenario.unconfigured Scenario.noHeadcountEnv
      Scenario.demo1 in
  riskLevel (hr result) = low /\
  budget (finance result) = NaN /\
  approved (manager result) = false /\
  finalDecision (manager result) = "Lunch order rejected due to budget constraints".
Proof. vm_compute. repeat split; reflexivity. Qed.

(** * Further properties of the steps *)

(** ** The sanitizer as a list operation *)

Lemma clean_stays (item : string) : clean item -> Spec.stays item = true.
Proof.
  unfold Spec.stays, Spec.firstFailed, clean. simpl.
  intros (-> & -> & ->). reflexivity.
Qed.

Lemma filter_all {A} (f : A -> bool) (l : list A) :
  List.filter f l = l <-> Forall (fun x => f x = true) l.
Proof.
  induction l as [|x l IH]; simpl.
  - split; [constructor | reflexivity].
  - destruct (f x) eqn:Hx.
    + split.
      * intros [= H]. constructor; [exact Hx | apply IH; exact H].
      * intros H. inversion H; subst. f_equal. apply IH. assumption.
    + split.
      * intros H. exfalso.
        pose proof (sublist_length _ _ (filter_sublist f l)) as Hlen.
        rewrite H in Hlen. simpl in Hlen. lia.
      * intros H. inversion H; subst. congruence.
Qed.

Lemma omap_violationOf_stays (menu : list string) :
  Forall (fun item => Spec.stays item = true) menu ->
  omap Spec.violationOf menu = [].
Proof.
  induction 1 as [|item menu Hitem _ IH]; simpl; [reflexivity|].
  apply stays_violationOf in Hitem. rewrite Hitem. exact IH.
Qed.

Lemma omap_violationOf_nil (menu : list string) :
  omap Spec.violationOf menu = [] ->
  Forall (fun item => Spec.stays item = true) menu.
Proof.
  induction menu as [|item menu IH]; simpl; [constructor|].
  destruct (Spec.violationOf item) eqn:Hv; [discriminate|].
  intros H. constructor; [apply stays_violationOf; exact Hv | apply IH; exact H].
Qed.

Lemma filter_stays_stays (menu : list string) :
  Forall (fun item => Spec.stays item = true) (List.filter Spec.stays menu).
Proof.
  apply Forall_forall. intros item Hin. apply elem_of_filter_bool in Hin. apply Hin.
Qed.

(** X1. Sanitizing is idempotent: the sanitized menu passes a second run
    unchanged and without a violation; and a menu passes unchanged and
    without a violation exactly when none of its items matches one of the
    three policy predicates. *)
Theorem sanitize_idempotent (menu : list string) :
  sanitizeMenuBasedOnPolicy (fst (sanitizeMenuBasedOnPolicy menu)) =
    (fst (sanitizeMenuBasedOnPolicy menu), []) /\
  (sanitizeMenuBasedOnPolicy menu = (menu, []) <-> Forall clean menu) /\
  (snd (sanitizeMenuBasedOnPolicy menu) = [] <-> Forall clean menu).
Proof.
  rewrite !sanitize_eq. cbn [fst snd].
  assert (Hclean : Forall clean menu <-> Forall (fun item => Spec.stays item = true) menu).
  { split; intros H; (eapply Forall_impl; [exact H|]); intros item;
      [apply clean_stays | apply stays_clean]. }
  split; [|split].
  - f_equal.
    + apply filter_all, filter_stays_stays.
    + apply omap_violationOf_stays, filter_stays_stays.
  - rewrite Hclean. split.
    + intros [= _ H]. apply omap_violationOf_nil. exact H.
    + intros H. f_equal; [apply filter_all; exact H | apply omap_violationOf_stays; exact H].
  - rewrite Hclean. split; [apply omap_violationOf_nil | apply omap_violationOf_stays].
Qed.

(** X2. The sanitizer treats every item on its own: sanitizing two menus
    one after the other gives the sanitized menu and the violations of
    their concatenation. *)
Theorem sanitize_app (menu1 menu2 : list string) :
  sanitizeMenuBasedOnPolicy (menu1 ++ menu2) =
  (fst (sanitizeMenuBasedOnPolicy menu1) ++ fst (sanitizeMenuBasedOnPolicy menu2),
   snd (sanitizeMenuBasedOnPolicy menu1) ++ snd (sanitizeMenuBasedOnPolicy menu2)).
Proof.
  rewrite !sanitize_eq. cbn [fst snd].
  rewrite List.filter_app, omap_app. reflexivity.
Qed.

(** ** Substring search *)

Lemma app_String (c : ascii) (s t : string) : String c s +:+ t = String c (s +:+ t).
Proof. reflexivity. Qed.

Lemma app_empty (t : string) : "" +:+ t = t.
Proof. reflexivity. Qed.

Lemma toLowerCase_app (a b : string) :
  JS.toLowerCase (a +:+ b) = JS.toLowerCase a +:+ JS.toLowerCase b.
Proof.
  induction a as [|c a IH]; [reflexivity|].
  rewrite app_String. simpl. rewrite IH. reflexivity.
Qed.

Lemma prefix_app (w s t : string) :
  String.prefix w s = true -> String.prefix w (s +:+ t) = true.
Proof.
  revert s. induction w as [|c w IH]; intros s H.
  - destruct (s +:+ t); reflexivity.
  - destruct s as [|d s]; [discriminate|]. rewrite app_String. simpl in *.
    destruct (ascii_dec c d); [apply IH; exact H | discriminate].
Qed.

Lemma includes_app_r (s t w : string) :
  JS.includes s w = true -> JS.includes (s +:+ t) w = true.
Proof.
  induction s as [|c s IH]; intros H; simpl in H.
  - rewrite orb_false_r in H. destruct w; [|discriminate].
    rewrite app_empty. destruct t; reflexivity.
  - rewrite app_String. simpl. apply orb_true_iff in H. apply orb_true_iff.
    destruct H as [H|H]; [left | right; apply IH; exact H].
    exact (prefix_app w (String c s) t H).
Qed.

Lemma includes_app_l (s t w : string) :
  JS.includes t w = true -> JS.includes (s +:+ t) w = true.
Proof.
  intros H. induction s as [|c s IH]; [exact H|].
  rewrite app_String. simpl. rewrite IH. apply orb_true_r.
Qed.

Lemma includes_embedded (pre s post w : string) :
  JS.includes s w = true -> JS.includes (pre +:+ s +:+ post) w = true.
Proof. intros H. apply includes_app_l, includes_app_r, H. Qed.

Lemma some_includes_embedded (pre item post : string) (keywords : list string) :
  JS.some (fun keyword => JS.includes (JS.toLowerCase item) keyword) keywords = true ->
  JS.some (fun keyword =>
             JS.includes (JS.toLowerCase (pre +:+ item +:+ post)) keyword) keywords = true.
Proof.
  unfold JS.some. rewrite !existsb_exists. intros (w & Hw & H). exists w.
  split; [exact Hw|]. rewrite !toLowerCase_app. apply includes_embedded, H.
Qed.

(** X3. A policy keyword cannot be hidden in a longer text: an item that
    contains, anywhere, the text of an item matched by one of the three
    policy predicates is matched by it too, and an item containing the text
    of a removed item is removed. *)
Theorem policy_match_embedded (pre item post : string) :
  (containsTobacco item = true ->
   containsTobacco (pre +:+ item +:+ post) = true) /\
  (containsHardLiquor item = true ->
   containsHardLiquor (pre +:+ item +:+ post) = true) /\
  (containsMajorAllergens item = true ->
   containsMajorAllergens (pre +:+ item +:+ post) = true) /\
  (fst (sanitizeMenuBasedOnPolicy [item]) = [] ->
   fst (sanitizeMenuBasedOnPolicy [pre +:+ item +:+ post]) = []).
Proof.
  assert (Ht : containsTobacco item = true ->
               containsTobacco (pre +:+ item +:+ post) = true)
    by apply some_includes_embedded.
  assert (Hl : containsHardLiquor item = true ->
               containsHardLiquor (pre +:+ item +:+ post) = true)
    by apply some_includes_embedded.
  assert (Ha : containsMajorAllergens item = true ->
               containsMajorAllergens (pre +:+ item +:+ post) = true)
    by apply some_includes_embedded.
  repeat split; try assumption.
  unfold sanitizeMenuBasedOnPolicy. cbn [JS.filterWith]. unfold sanitizeItem.
  destruct (containsTobacco item); [rewrite Ht; reflexivity|].
  destruct (containsHardLiquor item).
  { rewrite Hl by reflexivity.
    destruct (containsTobacco (pre +:+ item +:+ post)); reflexivity. }
  destruct (containsMajorAllergens item); [|discriminate].
  rewrite Ha by reflexivity.
  destruct (containsTobacco (pre +:+ item +:+ post)),
           (containsHardLiquor (pre +:+ item +:+ post)); reflexivity.
Qed.

Lemma policy_match_embedded_witness :
  containsHardLiquor "gin" = true /\
  containsHardLiquor ("Fresh " +:+ "gin" +:+ "ger tea") = true.
Proof.
  assert (H : containsHardLiquor "gin" = true) by (vm_compute; reflexivity).
  split; [exact H|].
  apply (proj1 (proj2 (policy_match_embedded "Fresh " "gin" "ger tea"))). exact H.
Defined.

(** ** The inclusivity checks *)

(** A word without a space. *)
Lemma noSpace_String (c : ascii) (w : string) :
  JS.includes (String c w) " " = false -> c <> " "%char /\ JS.includes w " " = false.
Proof.
  simpl. intros H. apply orb_false_iff in H. destruct H as [H1 H2].
  split; [|exact H2]. intros ->. destruct w; cbv in H1; discriminate.
Qed.

Lemma prefix_sep (w x b : string) :
  JS.includes w " " = false ->
  String.prefix w (x +:+ " " +:+ b) = String.prefix w x.
Proof.
  revert x. induction w as [|c w IH]; intros x Hw.
  - destruct x; reflexivity.
  - apply noSpace_String in Hw. destruct Hw as [Hc Hw].
    destruct x as [|d x].
    + rewrite app_empty. simpl. destruct (ascii_dec c " "); [contradiction | reflexivity].
    + rewrite app_String. simpl. destruct (ascii_dec c d); [apply IH; exact Hw | reflexivity].
Qed.

Lemma prefix_empty (w : string) : w <> "" -> String.prefix w "" = false.
Proof. destruct w; [contradiction | reflexivity]. Qed.

Lemma includes_sep (a b w : string) :
  w <> "" -> JS.includes w " " = false ->
  JS.includes (a +:+ " " +:+ b) w = JS.includes a w || JS.includes b w.
Proof.
  intros Hne Hw. induction a as [|c a IH].
  - rewrite app_empty. change (" " +:+ b) with (String " " b).
    cbn [JS.includes].
    pose proof (prefix_sep w "" b Hw) as Hp. rewrite app_empty in Hp.
    change (" " +:+ b) with (String " " b) in Hp.
    rewrite Hp, (prefix_empty w Hne). reflexivity.
  - rewrite app_String. cbn [JS.includes].
    rewrite <- app_String, (prefix_sep w (String c a) b Hw), IH.
    rewrite orb_assoc. reflexivity.
Qed.

Lemma includes_join (l : list string) (w : string) :
  w <> "" -> JS.includes w " " = false ->
  JS.includes (JS.join " " l) w = existsb (fun x => JS.includes x w) l.
Proof.
  intros Hne Hw. induction l as [|x l IH].
  - change (JS.includes (JS.join " " []) w) with (String.prefix w "" || false).
    rewrite (prefix_empty w Hne). reflexivity.
  - destruct l as [|y l].
    + cbn [JS.join existsb]. rewrite orb_false_r. reflexivity.
    + change (JS.join " " (x :: y :: l)) with (x +:+ " " +:+ JS.join " " (y :: l)).
      rewrite (includes_sep _ _ _ Hne Hw), IH. reflexivity.
Qed.

Lemma toLowerCase_join (l : list string) :
  JS.toLowerCase (JS.join " " l) = JS.join " " (List.map JS.toLowerCase l).
Proof.
  induction l as [|x l IH]; [reflexivity|].
  destruct l as [|y l]; [reflexivity|].
  change (JS.join " " (x :: y :: l)) with (x +:+ " " +:+ JS.join " " (y :: l)).
  rewrite !toLowerCase_app, IH. reflexivity.
Qed.

Lemma includes_menuText (menu : list string) (w : string) :
  w <> "" -> JS.includes w " " = false ->
  JS.includes (JS.toLowerCase (JS.join " " menu)) w =
  JS.some (fun item => JS.includes (JS.toLowerCase item) w) menu.
Proof.
  intros Hne Hw. rewrite toLowerCase_join, (includes_join _ _ Hne Hw).
  unfold JS.some. induction menu as [|x l IH]; simpl; [reflexivity|].
  rewrite IH. reflexivity.
Qed.

Lemma some_orb {A} (f g : A -> bool) (l : list A) :
  JS.some f l || JS.some g l = JS.some (fun x => f x || g x) l.
Proof.
  unfold JS.some. induction l as [|x l IH]; simpl; [reflexivity|].
  rewrite <- IH. destruct (f x), (g x), (existsb f l), (existsb g l); reflexivity.
Qed.

Lemma some_ext {A} (f g : A -> bool) (l : list A) :
  (forall x, f x = g x) -> JS.some f l = JS.some g l.
Proof.
  intros H. unfold JS.some. induction l as [|x l IH]; simpl; [reflexivity|].
  rewrite H, IH. reflexivity.
Qed.

Lemma hasVegetarian_some (menu : list string) :
  hasVegetarian (checkInclusivity menu) =
  JS.some (fun item =>
             JS.some (JS.includes (JS.toLowerCase item))
               ["vegetarian"; "vegan"; "salad"; "veggie"]) menu.
Proof.
  unfold checkInclusivity. cbn [hasVegetarian].
  rewrite !includes_menuText by (discriminate || reflexivity).
  rewrite !some_orb. apply some_ext. intros item.
  unfold JS.some. cbn [existsb]. rewrite orb_false_r, !orb_assoc. reflexivity.
Qed.

(** X4. A menu has a vegetarian option for [checkInclusivity] exactly when
    one of its items contains vegetarian, vegan, salad or veggie, whatever
    the case; otherwise, and so for the empty menu, [validateInclusivity]
    reports the missing option. *)
Theorem inclusivity_vegetarian (menu : list string) :
  let vegetarian := mentionsAny ["vegetarian"; "vegan"; "salad"; "veggie"] in
  (hasVegetarian (checkInclusivity menu) = true <->
   Exists (fun item => vegetarian item = true) menu) /\
  ("🫶 No vegetarian/vegan options available - consider adding plant-based choices"
     ∈ validateInclusivity menu <->
   ~ Exists (fun item => vegetarian item = true) menu) /\
  validateInclusivity [] =
    ["🫶 No vegetarian/vegan options available - consider adding plant-based choices"].
Proof.
  intros vegetarian.
  assert (Hveg : hasVegetarian (checkInclusivity menu) = true <->
                 Exists (fun item => vegetarian item = true) menu).
  { rewrite hasVegetarian_some. apply some_Exists. }
  split; [exact Hveg|]. split; [|reflexivity].
  rewrite <- Hveg. unfold validateInclusivity, pushIf. cbv zeta.
  destruct (hasVegetarian (checkInclusivity menu)),
           (isPorkHeavy (checkInclusivity menu)); simpl;
    rewrite ?elem_of_cons, ?elem_of_nil; split; intros H;
    try (exfalso; apply H; reflexivity);
    try discriminate; try tauto;
    try (destruct H as [H|[H|H]]; try discriminate H; contradiction);
    try (destruct H as [H|H]; try discriminate H; contradiction).
Qed.

(** *** Counting the matches of the pork words *)

Lemma firstPrefix_Some (words : list string) (s w : string) :
  JS.firstPrefix words s = Some w -> In w words /\ String.prefix w s = true.
Proof.
  induction words as [|v words IH]; simpl; [discriminate|].
  destruct (String.prefix v s) eqn:Hv.
  - intros [= <-]. auto.
  - intros H. destruct (IH H). auto.
Qed.

Lemma firstPrefix_None (words : list string) (s : string) :
  JS.firstPrefix words s = None -> forall w, In w words -> String.prefix w s = false.
Proof.
  induction words as [|v words IH]; simpl; [contradiction|].
  destruct (String.prefix v s) eqn:Hv; [discriminate|].
  intros H w [<-|Hw]; [exact Hv | apply IH; assumption].
Qed.

Lemma firstPrefix_sep (words : list string) (x b : string) :
  (forall w, In w words -> JS.includes w " " = false) ->
  JS.firstPrefix words (x +:+ " " +:+ b) = JS.firstPrefix words x.
Proof.
  induction words as [|v words IH]; intros Hw; simpl; [reflexivity|].
  rewrite (prefix_sep v x b) by (apply Hw; left; reflexivity).
  rewrite IH by (intros w H; apply Hw; right; exact H). reflexivity.
Qed.

Lemma prefix_length (w s : string) :
  String.prefix w s = true -> (String.length w <= String.length s)%nat.
Proof.
  revert s. induction w as [|c w IH]; intros s H; simpl; [lia|].
  destruct s as [|d s]; [discriminate|]. simpl in *.
  destruct (ascii_dec c d); [|discriminate]. apply IH in H. lia.
Qed.

(** A match never runs over the space between two items, so the matches of
    a joined text are those of its parts. *)
Lemma countMatchesFrom_sep (words : list string) (b : string) :
  (forall w, In w words -> w <> "" /\ JS.includes w " " = false) ->
  forall a k, (k <= String.length a)%nat ->
    JS.countMatchesFrom words k (a +:+ " " +:+ b) =
    (JS.countMatchesFrom words k a + JS.countMatchesFrom words 0 b)%nat.
Proof.
  intros Hw.
  assert (Hsp : forall w, In w words -> JS.includes w " " = false)
    by (intros w H; apply Hw, H).
  induction a as [|c a IH]; intros k Hk.
  - simpl in Hk. replace k with 0%nat by lia.
    rewrite app_empty. change (" " +:+ b) with (String " " b).
    cbn [JS.countMatchesFrom].
    pose proof (firstPrefix_sep words "" b Hsp) as Hp.
    rewrite app_empty in Hp. change (" " +:+ b) with (String " " b) in Hp.
    rewrite Hp.
    destruct (JS.firstPrefix words "") as [w|] eqn:Hf; [|reflexivity].
    apply firstPrefix_Some in Hf. destruct Hf as [Hin Hpre].
    destruct (Hw w Hin) as [Hne _]. rewrite (prefix_empty w Hne) in Hpre. discriminate.
  - rewrite app_String. cbn [JS.countMatchesFrom].
    destruct k as [|k].
    + rewrite <- app_String, (firstPrefix_sep words (String c a) b Hsp).
      destruct (JS.firstPrefix words (String c a)) as [w|] eqn:Hf.
      * apply firstPrefix_Some in Hf. destruct Hf as [_ Hpre].
        apply prefix_length in Hpre. simpl in Hpre.
        rewrite IH by lia. reflexivity.
      * apply IH. lia.
    + apply IH. simpl in Hk. lia.
Qed.

Lemma countMatches_join (words : list string) (l : list string) :
  (forall w, In w words -> w <> "" /\ JS.includes w " " = false) ->
  JS.countMatches words (JS.join " " l) = list_sum (List.map (JS.countMatches words) l).
Proof.
  intros Hw. unfold JS.countMatches. induction l as [|x l IH]; [reflexivity|].
  destruct l as [|y l].
  - cbn [JS.join List.map list_sum fold_right]. lia.
  - change (JS.join " " (x :: y :: l)) with (x +:+ " " +:+ JS.join " " (y :: l)).
    rewrite (countMatchesFrom_sep words _ Hw) by lia. rewrite IH. reflexivity.
Qed.

Lemma countMatchesFrom_pos (words : list string) (s : string) :
  forall k, (0 < JS.countMatchesFrom words k s)%nat ->
    exists w, In w words /\ JS.includes s w = true.
Proof.
  induction s as [|c s IH]; intros k H; [simpl in H; lia|].
  cbn [JS.countMatchesFrom] in H.
  assert (Htail : forall j, (0 < JS.countMatchesFrom words j s)%nat ->
                    exists w, In w words /\ JS.includes (String c s) w = true).
  { intros j Hj. destruct (IH j Hj) as (w & Hin & Hinc). exists w.
    split; [exact Hin|]. cbn [JS.includes]. rewrite Hinc. apply orb_true_r. }
  destruct k as [|k]; [|exact (Htail k H)].
  destruct (JS.firstPrefix words (String c s)) as [w|] eqn:Hf; [|exact (Htail 0%nat H)].
  apply firstPrefix_Some in Hf. destruct Hf as [Hin Hpre]. exists w.
  split; [exact Hin|]. cbn [JS.includes]. rewrite Hpre. reflexivity.
Qed.

Lemma includes_countMatches_pos (words : list string) (s w : string) :
  (forall v, In v words -> v <> "") ->
  In w words -> JS.includes s w = true ->
  (0 < JS.countMatches words s)%nat.
Proof.
  intros Hne Hin. unfold JS.countMatches. induction s as [|c s IH]; intros H.
  - cbn [JS.includes] in H. rewrite orb_false_r in H.
    rewrite (prefix_empty w (Hne w Hin)) in H. discriminate.
  - cbn [JS.countMatchesFrom].
    destruct (JS.firstPrefix words (String c s)) as [v|] eqn:Hf; [lia|].
    cbn [JS.includes] in H.
    rewrite (firstPrefix_None _ _ Hf w Hin) in H. apply IH. exact H.
Qed.

Lemma list_sum_filter_pos {A} (f : A -> nat) (l : list A) :
  (length (List.filter (fun x => (0 <? f x)%nat) l) <= list_sum (List.map f l))%nat.
Proof.
  induction l as [|x l IH]; simpl; [lia|].
  destruct (0 <? f x)%nat eqn:Hx; simpl; [|lia].
  apply Nat.ltb_lt in Hx. lia.
Qed.

Lemma list_sum_pos {A} (f : A -> nat) (l : list A) :
  (0 < list_sum (List.map f l))%nat -> exists x, In x l /\ (0 < f x)%nat.
Proof.
  induction l as [|x l IH]; simpl; [lia|].
  intros H. destruct (f x) as [|n] eqn:Hx.
  - destruct (IH H) as (y & Hy & Hpos). eauto.
  - exists x. split; [auto | lia].
Qed.

Lemma porkWords_ok :
  forall w, In w ["pork"; "bacon"; "ham"; "sausage"] ->
    w <> "" /\ JS.includes w " " = false.
Proof.
  intros w [<-|[<-|[<-|[<-|[]]]]]; split; (discriminate || reflexivity).
Qed.

Lemma countMatches_mentionsAny (words : list string) (item : string) :
  (forall v, In v words -> v <> "") ->
  (0 <? JS.countMatches words (JS.toLowerCase item))%nat = mentionsAny words item.
Proof.
  intros Hne. unfold mentionsAny, JS.some.
  destruct (existsb _ words) eqn:Hex.
  - apply existsb_exists in Hex. destruct Hex as (w & Hin & Hinc).
    apply Nat.ltb_lt. eapply includes_countMatches_pos; eassumption.
  - apply Nat.ltb_ge. destruct (JS.countMatches words (JS.toLowerCase item)) eqn:Hc; [lia|].
    exfalso. destruct (countMatchesFrom_pos words (JS.toLowerCase item) 0%nat)
      as (w & Hin & Hinc); [unfold JS.countMatches in Hc; lia|].
    assert (existsb (JS.includes (JS.toLowerCase item)) words = true)
      by (apply existsb_exists; eauto).
    congruence.
Qed.

Lemma isPorkHeavy_sum (menu : list string) :
  isPorkHeavy (checkInclusivity menu) =
  (length menu <?
   2 * list_sum
         (List.map (fun item =>
                      JS.countMatches ["pork"; "bacon"; "ham"; "sausage"]
                        (JS.toLowerCase item)) menu))%nat.
Proof.
  unfold checkInclusivity. cbn [isPorkHeavy].
  rewrite toLowerCase_join, (countMatches_join _ _ porkWords_ok), List.map_map.
  reflexivity.
Qed.

(** X5. The pork test counts the matches of pork, bacon, ham and sausage
    over the items, an item counting once for each match in it.  A menu
    found pork-heavy has an item containing one of the words; a menu of
    which more than half of the items contain one is pork-heavy; the empty
    menu is not. *)
Theorem inclusivity_pork_heavy (menu : list string) :
  let words := ["pork"; "bacon"; "ham"; "sausage"] in
  isPorkHeavy (checkInclusivity menu) =
    (length menu <?
     2 * list_sum (List.map (fun item => JS.countMatches words (JS.toLowerCase item))
                     menu))%nat /\
  (isPorkHeavy (checkInclusivity menu) = true ->
   Exists (fun item => mentionsAny words item = true) menu) /\
  ((length menu < 2 * length (List.filter (mentionsAny words) menu))%nat ->
   isPorkHeavy (checkInclusivity menu) = true) /\
  isPorkHeavy (checkInclusivity []) = false.
Proof.
  intros words.
  assert (Hne : forall v, In v words -> v <> "") by (intros v H; apply porkWords_ok, H).
  split; [apply isPorkHeavy_sum|]. rewrite isPorkHeavy_sum. fold words.
  split; [|split; [|reflexivity]].
  - intros H. apply Nat.ltb_lt in H.
    destruct (list_sum_pos (fun item => JS.countMatches words (JS.toLowerCase item)) menu)
      as (item & Hin & Hpos); [lia|].
    apply Exists_exists. exists item. split; [apply list_elem_of_In; exact Hin|].
    rewrite <- (countMatches_mentionsAny words item Hne). apply Nat.ltb_lt. exact Hpos.
  - intros H. apply Nat.ltb_lt.
    pose proof (list_sum_filter_pos
                  (fun item => JS.countMatches words (JS.toLowerCase item)) menu) as Hsum.
    rewrite (List.filter_ext _ (mentionsAny words)) in Hsum
      by (intros item; apply countMatches_mentionsAny; exact Hne).
    lia.
Qed.

(** ** The reasons of the HR step *)

Lemma newSet_elem (l : list string) (x : string) : x ∈ JS.newSet l <-> x ∈ l.
Proof. rewrite newSet_firstOccurrences. apply firstOccurrences_elem. Qed.

Lemma newSet_NoDup (l : list string) : NoDup (JS.newSet l).
Proof. rewrite newSet_firstOccurrences. apply firstOccurrences_NoDup. Qed.

Lemma newSet_nil (l : list string) : JS.newSet l = [] <-> l = [].
Proof.
  rewrite newSet_firstOccurrences. destruct l; simpl; split; intros; congruence.
Qed.

Lemma orCompliant_nonempty (l : list string) : l <> [] -> orCompliant l = l.
Proof. destruct l; [contradiction | reflexivity]. Qed.

Lemma fallbackHRStep_reasons (input : PipelineInput) :
  reasons (fallbackHRStep input) =
  orCompliant
    (JS.newSet
       (snd (sanitizeMenuBasedOnPolicy (lunchMenu input)) ++
        validateInclusivity (fst (sanitizeMenuBasedOnPolicy (lunchMenu input))))).
Proof.
  unfold fallbackHRStep. destruct (sanitizeMenuBasedOnPolicy (lunchMenu input)). reflexivity.
Qed.

Lemma advisoryResult_reasons (input : PipelineInput) (response t r : string) :
  reasons (advisoryResult input response t r) =
  orCompliant
    (JS.newSet
       (extractRiskReasons response ++
        snd (sanitizeMenuBasedOnPolicy (lunchMenu input)) ++
        validateInclusivity (fst (sanitizeMenuBasedOnPolicy (lunchMenu input))))).
Proof.
  unfold advisoryResult. destruct (sanitizeMenuBasedOnPolicy (lunchMenu input)). reflexivity.
Qed.

Lemma orCompliant_newSet_NoDup (l : list string) :
  orCompliant (JS.newSet l) <> [] /\ NoDup (orCompliant (JS.newSet l)).
Proof.
  pose proof (newSet_NoDup l) as Hnd. unfold orCompliant.
  destruct (JS.newSet l); simpl.
  - split; [discriminate|]. apply NoDup_singleton.
  - split; [discriminate | exact Hnd].
Qed.

Lemma orCompliant_newSet_elem (l : list string) (x : string) :
  x ∈ l -> x ∈ orCompliant (JS.newSet l).
Proof.
  intros H. apply newSet_elem in H. unfold orCompliant.
  destruct (JS.newSet l); [inversion H | exact H].
Qed.

(** X6. In every world the reasons returned by [hrStep] are a non-empty
    list without duplicates. *)
Theorem hrStep_reasons_nonempty_nodup (w : World) (input : PipelineInput) :
  reasons (hrStep w input) <> [] /\ NoDup (reasons (hrStep w input)).
Proof.
  destruct (hrStep_cases w input) as [H|(response & t & r & _ & _ & _ & H)]; rewrite H.
  - rewrite fallbackHRStep_reasons. apply orCompliant_newSet_NoDup.
  - rewrite advisoryResult_reasons. apply orCompliant_newSet_NoDup.
Qed.

Lemma findings_reported (w : World) (input : PipelineInput) (x : string) :
  x ∈ snd (sanitizeMenuBasedOnPolicy (lunchMenu input)) ++
      validateInclusivity (fst (sanitizeMenuBasedOnPolicy (lunchMenu input))) ->
  x ∈ reasons (hrStep w input).
Proof.
  intros Hx.
  destruct (hrStep_cases w input) as [H|(response & t & r & _ & _ & _ & H)]; rewrite H.
  - rewrite fallbackHRStep_reasons. apply orCompliant_newSet_elem, Hx.
  - rewrite advisoryResult_reasons. apply orCompliant_newSet_elem.
    apply elem_of_app. right. exact Hx.
Qed.

Lemma hrStep_sanitizedMenu (w : World) (input : PipelineInput) :
  sanitizedMenu (hrStep w input) = fst (sanitizeMenuBasedOnPolicy (lunchMenu input)).
Proof.
  destruct (hrStep_cases w input) as [H|(response & t & r & _ & _ & _ & H)]; rewrite H.
  - apply fallbackHRStep_sanitizedMenu.
  - apply advisoryResult_sanitizedMenu.
Qed.

(** X7. What the rules find is always reported, whatever the advisory
    service does: in every world the reasons of [hrStep] contain every
    violation of the sanitizer and every inclusivity issue of the sanitized
    menu, and every item of the raw menu is either in the sanitized menu or
    named, after a label, by one of the reasons. *)
Theorem hrStep_reports_findings (w : World) (input : PipelineInput) :
  let result := hrStep w input in
  Forall (fun reason => reason ∈ reasons result)
    (snd (sanitizeMenuBasedOnPolicy (lunchMenu input))) /\
  Forall (fun reason => reason ∈ reasons result)
    (validateInclusivity (sanitizedMenu result)) /\
  Forall (fun item =>
            item ∈ sanitizedMenu result \/
            exists label, label +:+ item ∈ reasons result)
    (lunchMenu input).
Proof.
  intros result. subst result. rewrite hrStep_sanitizedMenu.
  split; [|split]; apply Forall_forall.
  - intros x Hx. apply findings_reported, elem_of_app. left. exact Hx.
  - intros x Hx. apply findings_reported, elem_of_app. right. exact Hx.
  - intros item Hitem. rewrite sanitize_eq. cbn [fst].
    destruct (Spec.stays item) eqn:Hstay.
    + left. apply elem_of_filter_bool. auto.
    + right. unfold Spec.stays in Hstay.
      destruct (Spec.firstFailed item) as [c|] eqn:Hc; [|discriminate].
      assert (Hin : Spec.reasonText c item ∈
                    snd (sanitizeMenuBasedOnPolicy (lunchMenu input))).
      { rewrite sanitize_eq. cbn [snd]. apply list_elem_of_omap. exists item.
        split; [exact Hitem|]. unfold Spec.violationOf. rewrite Hc. reflexivity. }
      destruct c; eexists; apply findings_reported, elem_of_app; left; exact Hin.
Qed.

Lemma pushIf_sublist (c : bool) (r : string) (l k : list string) :
  l `sublist_of` k -> pushIf c r l `sublist_of` k ++ [r].
Proof.
  intros H. unfold pushIf. destruct c.
  - apply sublist_app; [exact H | reflexivity].
  - rewrite <- (app_nil_r l). apply sublist_app; [exact H | apply sublist_nil_l].
Qed.

Lemma elem_of_pushIf (c : bool) (r x : string) (l : list string) :
  x ∈ pushIf c r l <-> x ∈ l \/ (c = true /\ x = r).
Proof.
  unfold pushIf. destruct c.
  - rewrite elem_of_app, list_elem_of_singleton. intuition.
  - intuition discriminate.
Qed.

Lemma pushIf_nil (c : bool) (r : string) (l : list string) :
  pushIf c r l = [] <-> c = false /\ l = [].
Proof.
  unfold pushIf. destruct c, l; simpl; intuition discriminate.
Qed.

Ltac extract_sublist :=
  unfold extractRiskReasons; cbv zeta;
  repeat apply pushIf_sublist; apply sublist_nil.

Lemma extractRiskReasons_NoDup (response : string) :
  NoDup (extractRiskReasons response).
Proof.
  eapply sublist_NoDup; [|extract_sublist].
  cbn [app].
  repeat (apply NoDup_cons_2;
          [intros H; apply list_elem_of_In in H; cbn [In] in H; intuition discriminate|]).
  apply NoDup_nil_2.
Qed.

Lemma extractRiskReasons_length (response : string) :
  (length (extractRiskReasons response) <= 10)%nat.
Proof.
  etransitivity; [apply sublist_length; extract_sublist|]. simpl. lia.
Qed.

Lemma extractRiskReasons_not_compliant (response : string) :
  compliantReason ∉ extractRiskReasons response.
Proof.
  intros H. eapply elem_of_sublist in H; [|extract_sublist].
  apply list_elem_of_In in H. vm_compute in H. intuition discriminate.
Qed.

Lemma violations_not_compliant (menu : list string) :
  compliantReason ∉ snd (sanitizeMenuBasedOnPolicy menu).
Proof.
  rewrite sanitize_eq. cbn [snd]. intros H.
  apply list_elem_of_omap in H. destruct H as (item & _ & H).
  unfold Spec.violationOf in H. destruct (Spec.firstFailed item) as [c|]; [|discriminate].
  destruct c; vm_compute in H; discriminate.
Qed.

Lemma validateInclusivity_not_compliant (menu : list string) :
  compliantReason ∉ validateInclusivity menu.
Proof.
  unfold validateInclusivity, pushIf. cbv zeta.
  destruct (negb (hasVegetarian (checkInclusivity menu))),
           (isPorkHeavy (checkInclusivity menu));
    intros H; apply list_elem_of_In in H; cbn [In app] in H; intuition discriminate.
Qed.

(** [orCompliant] shows the compliance reason exactly for the empty list,
    when that reason is not among the reasons themselves. *)
Lemma orCompliant_newSet_compliant (l : list string) :
  compliantReason ∉ l ->
  (orCompliant (JS.newSet l) = [compliantReason] <-> l = []).
Proof.
  intros Hnot. split.
  - intros H. destruct l as [|x l]; [reflexivity|]. exfalso. apply Hnot.
    apply newSet_elem. rewrite orCompliant_nonempty in H.
    + rewrite H. apply list_elem_of_singleton. reflexivity.
    + intros Hnil. apply (proj1 (newSet_nil _)) in Hnil. discriminate Hnil.
  - intros ->. reflexivity.
Qed.

Lemma some_false {A} (p : A -> bool) (l : list A) :
  JS.some p l = false <-> Forall (fun x => p x = false) l.
Proof.
  unfold JS.some. induction l as [|x l IH]; simpl.
  - split; [constructor | reflexivity].
  - rewrite orb_false_iff, IH. split.
    + intros [H1 H2]. constructor; assumption.
    + intros H. inversion H; subst. auto.
Qed.

Lemma violations_nil (menu : list string) :
  snd (sanitizeMenuBasedOnPolicy menu) = [] <->
  JS.some containsTobacco menu = false /\
  JS.some containsHardLiquor menu = false /\
  JS.some containsMajorAllergens menu = false.
Proof.
  rewrite sanitize_eq, !some_false. cbn [snd]. split.
  - intros H. apply omap_violationOf_nil in H.
    repeat split; (eapply Forall_impl; [exact H|]); intros item Hs;
      apply stays_clean in Hs; apply Hs.
  - intros (Ht & Hl & Ha). apply omap_violationOf_stays.
    apply Forall_forall. intros item Hin. apply clean_stays.
    rewrite Forall_forall in Ht, Hl, Ha. repeat split; auto.
Qed.

(** X8. The compliance reason stands for "nothing to report".  On the
    fallback path it is the only reason exactly when the risk is low.  On
    the advisory path it is the only reason exactly when the answer gives no
    reason, the sanitizer removes nothing and the sanitized menu has no
    inclusivity issue; the answer then names vegetarian or vegan. *)
Theorem compliance_reason (input : PipelineInput) :
  (riskLevel (fallbackHRStep input) = low <->
   reasons (fallbackHRStep input) = [compliantReason]) /\
  (forall response t r,
     reasons (advisoryResult input response t r) = [compliantReason] <->
     extractRiskReasons response = [] /\
     snd (sanitizeMenuBasedOnPolicy (lunchMenu input)) = [] /\
     validateInclusivity (fst (sanitizeMenuBasedOnPolicy (lunchMenu input))) = []) /\
  (forall response t r,
     reasons (advisoryResult input response t r) = [compliantReason] ->
     Spec.mentions response "vegetarian" \/ Spec.mentions response "vegan").
Proof.
  set (violations := snd (sanitizeMenuBasedOnPolicy (lunchMenu input))).
  set (issues := validateInclusivity (fst (sanitizeMenuBasedOnPolicy (lunchMenu input)))).
  assert (Hall : compliantReason ∉ violations ++ issues).
  { rewrite elem_of_app. intros [H|H].
    - exact (violations_not_compliant _ H).
    - exact (validateInclusivity_not_compliant _ H). }
  assert (Hadv : forall response t r,
     reasons (advisoryResult input response t r) = [compliantReason] <->
     extractRiskReasons response = [] /\ violations = [] /\ issues = []).
  { intros response t r. rewrite advisoryResult_reasons. fold violations issues.
    rewrite orCompliant_newSet_compliant.
    - split.
      + intros H. apply app_eq_nil in H. destruct H as [H1 H2].
        apply app_eq_nil in H2. tauto.
      + intros (-> & -> & ->). reflexivity.
    - rewrite elem_of_app. intros [H|H]; [|exact (Hall H)].
      exact (extractRiskReasons_not_compliant _ H). }
  split; [|split; [exact Hadv|]].
  - rewrite fallbackHRStep_reasons, fallbackHRStep_riskLevel. cbv zeta.
    fold violations issues.
    rewrite (orCompliant_newSet_compliant _ Hall).
    pose proof (violations_nil (lunchMenu input)) as Hv. fold violations in Hv.
    assert (Hi : issues = [] <-> (0 <? length issues)%nat = false)
      by (generalize issues; intros l; destruct l; simpl; split; intros H;
          try reflexivity; discriminate H).
    assert (Hiff : violations ++ issues = [] <->
                   JS.some containsTobacco (lunchMenu input) = false /\
                   JS.some containsMajorAllergens (lunchMenu input) = false /\
                   JS.some containsHardLiquor (lunchMenu input) = false /\
                   (0 <? length issues)%nat = false).
    { split.
      - intros H. apply app_eq_nil in H. destruct H as [H1 H2].
        apply Hv in H1. apply Hi in H2. tauto.
      - intros (H1 & H2 & H3 & H4).
        assert (violations = []) as -> by (apply Hv; auto).
        assert (issues = []) as -> by (apply Hi; auto). reflexivity. }
    rewrite Hiff.
    destruct (JS.some containsTobacco (lunchMenu input)),
             (JS.some containsMajorAllergens (lunchMenu input)),
             (JS.some containsHardLiquor (lunchMenu input)),
             (0 <? length issues)%nat; simpl; intuition discriminate.
  - intros response t r H. apply Hadv in H. destruct H as [H _].
    unfold extractRiskReasons in H. cbv zeta in H.
    apply pushIf_nil in H. destruct H as [H _].
    unfold Spec.mentions.
    destruct (JS.includes (JS.toLowerCase response) "vegetarian"); [left; reflexivity|].
    destruct (JS.includes (JS.toLowerCase response) "vegan"); [right; reflexivity|].
    discriminate.
Qed.

Ltac find_reason H :=
  unfold extractRiskReasons; cbv zeta;
  repeat first
    [ apply elem_of_pushIf; right;
      split; [rewrite H, ?orb_true_r; reflexivity | reflexivity]
    | apply elem_of_pushIf; left ].

Lemma extract_tobacco (response : string) :
  Spec.mentions response "tobacco" ->
  "🚫 Contains tobacco products (cigars, cigarettes, vapes) - not allowed"
    ∈ extractRiskReasons response.
Proof. unfold Spec.mentions. intros H. find_reason H. Qed.

Lemma extract_hard_liquor (response : string) :
  Spec.mentions response "hard liquor" ->
  "🍷 Contains hard liquor - not allowed (beer, wine, champagne are permitted)"
    ∈ extractRiskReasons response.
Proof. unfold Spec.mentions. intros H. find_reason H. Qed.

Lemma extract_peanut (response : string) :
  Spec.mentions response "peanut" ->
  "⚠️ Contains nuts/peanuts - major allergen risk" ∈ extractRiskReasons response.
Proof. unfold Spec.mentions. intros H. find_reason H. Qed.

Lemma extract_shellfish (response : string) :
  Spec.mentions response "shellfish" ->
  "⚠️ Contains shellfish - major allergen risk" ∈ extractRiskReasons response.
Proof. unfold Spec.mentions. intros H. find_reason H. Qed.

Lemma advisoryResult_extract (input : PipelineInput) (response t r x : string) :
  x ∈ extractRiskReasons response -> x ∈ reasons (advisoryResult input response t r).
Proof.
  intros H. rewrite advisoryResult_reasons. apply orCompliant_newSet_elem.
  apply elem_of_app. left. exact H.
Qed.

(** X9. The reasons read from the answer of the assistant are at most ten,
    without duplicates, and all of them are in the advisory result.  When
    the answer is classified high for naming tobacco, hard liquor, peanut or
    shellfish, the result carries the reason of that category. *)
Theorem advisory_reasons_explain (input : PipelineInput) (response t r : string) :
  let result := advisoryResult input response t r in
  NoDup (extractRiskReasons response) /\
  (length (extractRiskReasons response) <= 10)%nat /\
  Forall (fun reason => reason ∈ reasons result) (extractRiskReasons response) /\
  (Spec.mentions response "tobacco" ->
   riskLevel result = high /\
   "🚫 Contains tobacco products (cigars, cigarettes, vapes) - not allowed"
     ∈ reasons result) /\
  (Spec.mentions response "hard liquor" ->
   riskLevel result = high /\
   "🍷 Contains hard liquor - not allowed (beer, wine, champagne are permitted)"
     ∈ reasons result) /\
  (Spec.mentions response "peanut" ->
   riskLevel result = high /\
   "⚠️ Contains nuts/peanuts - major allergen risk" ∈ reasons result) /\
  (Spec.mentions response "shellfish" ->
   riskLevel result = high /\
   "⚠️ Contains shellfish - major allergen risk" ∈ reasons result).
Proof.
  intros result. subst result. rewrite advisoryResult_riskLevel.
  split; [apply extractRiskReasons_NoDup|].
  split; [apply extractRiskReasons_length|].
  split; [apply Forall_forall; intros x Hx; apply advisoryResult_extract, Hx|].
  repeat split; try (apply parseRiskLevel_high; unfold Spec.highKeywords).
  - apply Exists_cons_hd. assumption.
  - apply advisoryResult_extract, extract_tobacco. assumption.
  - apply Exists_cons_tl, Exists_cons_hd. assumption.
  - apply advisoryResult_extract, extract_hard_liquor. assumption.
  - do 2 apply Exists_cons_tl. apply Exists_cons_hd. assumption.
  - apply advisoryResult_extract, extract_peanut. assumption.
  - do 3 apply Exists_cons_tl. apply Exists_cons_hd. assumption.
  - apply advisoryResult_extract, extract_shellfish. assumption.
Qed.

(** ** The employee step, again *)

Lemma trimStart_clean (s : string) :
  match JS.trimStart s with
  | "" => True
  | String c _ => JS.isWhiteSpace c = false
  end.
Proof.
  induction s as [|c s IH]; simpl; [exact I|].
  destruct (JS.isWhiteSpace c) eqn:Hc; [exact IH | exact Hc].
Qed.

Lemma trimStart_id (s : string) :
  match s with "" => True | String c _ => JS.isWhiteSpace c = false end ->
  JS.trimStart s = s.
Proof. destruct s as [|c s]; simpl; [reflexivity|]. intros ->. reflexivity. Qed.

Lemma trimEnd_clean (s : string) :
  match s with "" => True | String c _ => JS.isWhiteSpace c = false end ->
  match JS.trimEnd s with "" => True | String c _ => JS.isWhiteSpace c = false end.
Proof. destruct s as [|c s]; simpl; [auto|]. intros H. rewrite H. simpl. exact H. Qed.

Lemma trimEnd_idem (s : string) : JS.trimEnd (JS.trimEnd s) = JS.trimEnd s.
Proof.
  induction s as [|c s IH]; simpl; [reflexivity|].
  destruct (JS.isWhiteSpace c && JS.isEmpty (JS.trimEnd s)) eqn:Hc; [reflexivity|].
  simpl. rewrite IH, Hc. reflexivity.
Qed.

Lemma trim_idem (s : string) : JS.trim (JS.trim s) = JS.trim s.
Proof.
  unfold JS.trim.
  rewrite (trimStart_id (JS.trimEnd (JS.trimStart s)))
    by apply trimEnd_clean, trimStart_clean.
  apply trimEnd_idem.
Qed.

Lemma employeeStep_firstOccurrences (input : PipelineInput) :
  normalizedEmployees (employeeStep input) =
  Spec.firstOccurrences
    (List.filter (fun s => negb (JS.isEmpty s)) (List.map JS.trim (employees input))).
Proof.
  unfold employeeStep, JS.arrayFrom. simpl.
  rewrite newSet_firstOccurrences. f_equal.
  apply List.filter_ext. intros s. apply length_pos_nonempty.
Qed.

Lemma employeeStep_elem (input : PipelineInput) (x : string) :
  x ∈ normalizedEmployees (employeeStep input) <->
  x ∈ List.map JS.trim (employees input) /\ x <> "".
Proof.
  rewrite employeeStep_firstOccurrences, firstOccurrences_elem, elem_of_filter_bool.
  destruct x; simpl; intuition congruence.
Qed.

Lemma firstOccurrences_NoDup_id (l : list string) :
  NoDup l -> Spec.firstOccurrences l = l.
Proof.
  induction 1 as [|x l Hx Hl IH]; simpl; [reflexivity|].
  rewrite IH. f_equal. apply filter_all, Forall_forall. intros y Hy.
  destruct (String.eqb_spec y x) as [->|Hne]; [contradiction | reflexivity].
Qed.

Lemma map_id_Forall {A} (f : A -> A) (l : list A) :
  Forall (fun x => f x = x) l -> List.map f l = l.
Proof. induction 1 as [|x l Hx _ IH]; simpl; [reflexivity|]. rewrite Hx, IH. reflexivity. Qed.

Lemma employeeStep_trimmed (input : PipelineInput) :
  Forall (fun emp => JS.trim emp = emp /\ emp <> "")
    (normalizedEmployees (employeeStep input)).
Proof.
  apply Forall_forall. intros x Hx. apply employeeStep_elem in Hx.
  destruct Hx as [Hx Hne]. split; [|exact Hne].
  apply list_elem_of_In, in_map_iff in Hx. destruct Hx as (y & <- & _).
  apply trim_idem.
Qed.

(** X10. Normalizing is idempotent: every normalized employee is a trimmed,
    non-empty name, and [employeeStep] applied to its own output returns it
    unchanged. *)
Theorem employeeStep_idempotent (input : PipelineInput) :
  Forall (fun emp => JS.trim emp = emp /\ emp <> "")
    (normalizedEmployees (employeeStep input)) /\
  employeeStep {| employees := normalizedEmployees (employeeStep input);
                  lunchMenu := lunchMenu input |} = employeeStep input.
Proof.
  pose proof (employeeStep_trimmed input) as Htrim.
  split; [exact Htrim|].
  assert (Hout : normalizedEmployees
                   (employeeStep {| employees := normalizedEmployees (employeeStep input);
                                    lunchMenu := lunchMenu input |}) =
                 normalizedEmployees (employeeStep input)).
  { rewrite (employeeStep_firstOccurrences {| employees := _; lunchMenu := _ |}).
    cbn [employees].
    rewrite map_id_Forall
      by (eapply Forall_impl; [exact Htrim|]; intros x Hx; apply Hx).
    assert (Hne : List.filter (fun s => negb (JS.isEmpty s))
                    (normalizedEmployees (employeeStep input)) =
                  normalizedEmployees (employeeStep input)).
    { apply filter_all. eapply Forall_impl; [exact Htrim|].
      intros x [_ Hx]. destruct x; [contradiction | reflexivity]. }
    rewrite Hne. apply firstOccurrences_NoDup_id.
    rewrite employeeStep_firstOccurrences. apply firstOccurrences_NoDup. }
  destruct (employeeStep input) as [out] eqn:He.
  destruct (employeeStep {| employees := _; lunchMenu := _ |}) as [out'] eqn:He'.
  simpl in Hout. congruence.
Qed.

(** ** The finance step, again *)

Lemma financeStep_length (env : Env) (e1 e2 : EmployeeStepResult) :
  length (normalizedEmployees e1) = length (normalizedEmployees e2) ->
  financeStep env e1 = financeStep env e2.
Proof. intros H. unfold financeStep. rewrite H. reflexivity. Qed.

Lemma employeeStep_NoDup (input : PipelineInput) :
  NoDup (normalizedEmployees (employeeStep input)).
Proof. rewrite employeeStep_firstOccurrences. apply firstOccurrences_NoDup. Qed.

(** X11. The cost depends on the set of names only: two employee lists with
    the same trimmed names, in whatever order and however often repeated,
    have the same normalized employees up to their order and the same
    finance result. *)
Theorem financeStep_same_names (env : Env) (input1 input2 : PipelineInput) :
  (forall name, name ∈ List.map JS.trim (employees input1) <->
                name ∈ List.map JS.trim (employees input2)) ->
  normalizedEmployees (employeeStep input1) ≡ₚ
    normalizedEmployees (employeeStep input2) /\
  financeStep env (employeeStep input1) = financeStep env (employeeStep input2).
Proof.
  intros Hsame.
  assert (Hperm : normalizedEmployees (employeeStep input1) ≡ₚ
                  normalizedEmployees (employeeStep input2)).
  { apply NoDup_Permutation; try apply employeeStep_NoDup.
    intros x. rewrite !employeeStep_elem, Hsame. reflexivity. }
  split; [exact Hperm|].
  apply financeStep_length. apply Permutation_length. exact Hperm.
Qed.

Lemma financeStep_same_names_witness :
  let input1 := {| employees := [" Alice "; "Bob"; "Alice"]; lunchMenu := [] |} in
  let input2 := {| employees := ["Bob"; "Alice"]; lunchMenu := ["Quinoa bowl"] |} in
  (forall name, name ∈ List.map JS.trim (employees input1) <->
                name ∈ List.map JS.trim (employees input2)) /\
  financeStep Scenario.exampleEnv (employeeStep input1) =
  financeStep Scenario.exampleEnv (employeeStep input2).
Proof.
  intros input1 input2.
  assert (H : forall name, name ∈ List.map JS.trim (employees input1) <->
                           name ∈ List.map JS.trim (employees input2)).
  { intros name. vm_compute List.map.
    rewrite !elem_of_cons, elem_of_nil. tauto. }
  split; [exact H|].
  exact (proj2 (financeStep_same_names Scenario.exampleEnv input1 input2 H)).
Defined.








(** ** The pipeline *)







Lemma hrStep_menu_only (w : World) (input1 input2 : PipelineInput) :
  lunchMenu input1 = lunchMenu input2 -> hrStep w input1 = hrStep w input2.
Proof.
  intros H. unfold hrStep, hrStepTry, fallbackHRStep, advisoryResult.
  rewrite H. reflexivity.
Qed.

(** X16. The employee list reaches the decision through its headcount
    only: two orders with the same menu and as many normalized employees
    get, in the same world and configuration, the same HR result, the same
    finance result and the same decision of the manager. *)
Theorem pipeline_menu_and_headcount
    (toString : number -> string) (w : World) (env : Env)
    (input1 input2 : PipelineInput) :
  lunchMenu input1 = lunchMenu input2 ->
  length (normalizedEmployees (employeeStep input1)) =
    length (normalizedEmployees (employeeStep input2)) ->
  hr (runPipeline toString w env input1) = hr (runPipeline toString w env input2) /\
  finance (runPipeline toString w env input1) =
    finance (runPipeline toString w env input2) /\
  manager (runPipeline toString w env input1) =
    manager (runPipeline toString w env input2).
Proof.
  intros Hmenu Hlen. unfold runPipeline. cbn [hr finance manager].
  rewrite (hrStep_menu_only w input1 input2 Hmenu).
  rewrite (financeStep_length env _ _ Hlen). auto.
Qed.

Lemma pipeline_menu_and_headcount_witness :
  let input1 := {| employees := ["Alice"; "Bob"]; lunchMenu := ["Quinoa bowl"] |} in
  let input2 := {| employees := [" Carol"; "Dave "; "Carol"]; lunchMenu := ["Quinoa bowl"] |} in
  lunchMenu input1 = lunchMenu input2 /\
  length (normalizedEmployees (employeeStep input1)) =
    length (normalizedEmployees (employeeStep input2)) /\
  manager (runPipeline (fun _ => "?") Scenario.unconfigured Scenario.exampleEnv input1) =
    manager (runPipeline (fun _ => "?") Scenario.unconfigured Scenario.exampleEnv input2).
Proof.
  intros input1 input2.
  assert (H1 : lunchMenu input1 = lunchMenu input2) by reflexivity.
  assert (H2 : length (normalizedEmployees (employeeStep input1)) =
               length (normalizedEmployees (employeeStep input2)))
    by (vm_compute; reflexivity).
  split; [exact H1|]. split; [exact H2|].
  exact (proj2 (proj2 (pipeline_menu_and_headcount (fun _ => "?") Scenario.unconfigured
                         Scenario.exampleEnv input1 input2 H1 H2))).
Defined.

(** ** The route of the server *)

Lemma asStrings_strings (l : list string) :
  asStrings (List.map VString l) = Returned l.
Proof. induction l as [|s l IH]; simpl; [reflexivity|]. rewrite IH. reflexivity. Qed.

Lemma asStrings_thrown (items : list Value) :
  asStrings items = Thrown ->
  exists v, v ∈ items /\ forall s, v <> VString s.
Proof.
  induction items as [|v items IH]; [discriminate|].
  destruct v as [| |b|n|s|vs|];
    try (intros _; eexists; split;
         [apply elem_of_cons; left; reflexivity | intros s0; discriminate]).
  cbn [asStrings]. destruct (asStrings items) as [strings|]; cbn [bind].
  - intros H. discriminate H.
  - intros _. destruct (IH eq_refl) as (v & Hv & Hns).
    exists v. split; [apply elem_of_cons; right; exact Hv | exact Hns].
Qed.

Lemma isArray_not_falsy (v : Value) : isArray v = true -> isFalsy v = false.
Proof. destruct v; simpl; intros H; try discriminate H; reflexivity. Qed.

(** X17. The responses of [POST /api/pipeline/run].  A body whose
    [employees] is not an array gets the status 400 with the message for
    the employees, whatever its [lunchMenu]; a body with an array of
    employees whose [lunchMenu] is not an array gets the status 400 with
    the message for the menu; a body with two arrays of strings, empty ones
    included, gets the status 200 with the result of the pipeline, in every
    world and configuration; and a status 500 for a body with both arrays
    means that one of their elements is not a string. *)
Theorem handleRun_responses
    (toString : number -> string) (w : World) (env : Env) (input : Body) :
  (isArray (body_employees input) = false ->
   handleRun toString w env (Some input) =
     Status400 "Invalid input: employees array is required") /\
  (isArray (body_employees input) = true ->
   isArray (body_lunchMenu input) = false ->
   handleRun toString w env (Some input) =
     Status400 "Invalid input: lunchMenu array is required") /\
  (forall employees lunchMenu,
     body_employees input = VArray (List.map VString employees) ->
     body_lunchMenu input = VArray (List.map VString lunchMenu) ->
     handleRun toString w env (Some input) =
       Status200 (runPipeline toString w env
                    {| employees := employees; lunchMenu := lunchMenu |})) /\
  (handleRun toString w env (Some input) = Status500 ->
   exists v,
     (v ∈ itemsOf (body_employees input) \/ v ∈ itemsOf (body_lunchMenu input)) /\
     forall s, v <> VString s).
Proof.
  unfold handleRun.
  split; [intros ->; rewrite orb_true_r; reflexivity|].
  split.
  { intros He ->. rewrite (isArray_not_falsy _ He), He, orb_true_r. reflexivity. }
  split.
  { intros employees lunchMenu He Hm. unfold runPipelineOn. rewrite He, Hm.
    cbn [isFalsy isArray itemsOf orb negb].
    rewrite !asStrings_strings. reflexivity. }
  destruct (isFalsy (body_employees input) || negb (isArray (body_employees input)));
    [discriminate|].
  destruct (isFalsy (body_lunchMenu input) || negb (isArray (body_lunchMenu input)));
    [discriminate|].
  unfold runPipelineOn.
  destruct (asStrings (itemsOf (body_employees input))) as [es|] eqn:He.
  - destruct (asStrings (itemsOf (body_lunchMenu input))) as [ms|] eqn:Hm;
      [discriminate|].
    intros _. destruct (asStrings_thrown _ Hm) as (v & Hv & Hns). eauto.
  - intros _. destruct (asStrings_thrown _ He) as (v & Hv & Hns). eauto.
Qed.

(** ** The form *)

Lemma includes_char (c d : ascii) (s : string) :
  JS.includes (String d s) (String c "") = false <->
  d <> c /\ JS.includes s (String c "") = false.
Proof.
  cbn [JS.includes]. rewrite orb_false_iff. simpl String.prefix.
  destruct (ascii_dec c d) as [->|Hne].
  - split; [|intros [H _]; contradiction].
    intros [H _]. destruct s; discriminate H.
  - split; [intros [_ H]; split; [congruence | exact H] | intros [_ H]; auto].
Qed.

Lemma eqb_newline (c : ascii) : c <> App.newline -> Ascii.eqb c App.newline = false.
Proof. intros H. apply Ascii.eqb_neq. exact H. Qed.

Lemma split_line (x y : string) :
  JS.includes x (String App.newline "") = false ->
  App.split (x +:+ String App.newline y) App.newline = x :: App.split y App.newline.
Proof.
  induction x as [|c x IH]; intros H.
  - rewrite app_empty. cbn [App.split]. rewrite Ascii.eqb_refl. reflexivity.
  - apply includes_char in H. destruct H as [Hc Hx].
    rewrite app_String. cbn [App.split]. rewrite (eqb_newline c Hc), (IH Hx). reflexivity.
Qed.

Lemma split_single (x : string) :
  JS.includes x (String App.newline "") = false ->
  App.split x App.newline = [x].
Proof.
  induction x as [|c x IH]; intros H; [reflexivity|].
  apply includes_char in H. destruct H as [Hc Hx].
  cbn [App.split]. rewrite (eqb_newline c Hc), (IH Hx). reflexivity.
Qed.

Lemma split_join (l : list string) :
  Forall (fun x => JS.includes x (String App.newline "") = false) l ->
  l <> [] ->
  App.split (JS.join (String App.newline "") l) App.newline = l.
Proof.
  induction 1 as [|x l Hx Hl IH]; intros Hne; [contradiction|].
  destruct l as [|y l].
  - apply split_single, Hx.
  - change (JS.join (String App.newline "") (x :: y :: l))
      with (x +:+ String App.newline (JS.join (String App.newline "") (y :: l))).
    rewrite (split_line _ _ Hx), IH by discriminate. reflexivity.
Qed.

Lemma split_no_newline (s : string) :
  Forall (fun x => JS.includes x (String App.newline "") = false)
    (App.split s App.newline).
Proof.
  induction s as [|c s IH]; [repeat constructor|].
  cbn [App.split]. destruct (Ascii.eqb c App.newline) eqn:Hc.
  - constructor; [reflexivity | exact IH].
  - destruct (App.split s App.newline) as [|line lines].
    + repeat constructor. apply includes_char. split; [|reflexivity].
      apply Ascii.eqb_neq. exact Hc.
    + inversion IH; subst. constructor; [|assumption].
      apply includes_char. split; [apply Ascii.eqb_neq; exact Hc | assumption].
Qed.

Lemma filter_lines (l : list string) :
  Forall App.isLine l ->
  List.filter (fun e => negb (JS.isEmpty (JS.trim e)))
    (App.split (JS.join (String App.newline "") l) App.newline) = l.
Proof.
  intros H. destruct l as [|x l]; [reflexivity|].
  rewrite split_join; [| |discriminate].
  - apply filter_all. eapply Forall_impl; [exact H|]. intros y [_ Hy]. rewrite Hy. reflexivity.
  - eapply Forall_impl; [exact H|]. intros y [Hy _]. exact Hy.
Qed.

(** X18. Loading a demo and submitting the form gives back the demo: when
    every employee and every menu item of an order is a single non-blank
    line, joining the entries with line breaks, splitting the text at the
    line breaks and dropping the blank lines returns the order. *)
Theorem form_round_trip (demo : PipelineInput) :
  Forall App.isLine (employees demo) ->
  Forall App.isLine (lunchMenu demo) ->
  App.submittedInput (fst (App.loadDemo demo)) (snd (App.loadDemo demo)) = demo.
Proof.
  intros He Hm. unfold App.submittedInput, App.loadDemo. cbn [fst snd].
  rewrite (filter_lines _ He), (filter_lines _ Hm). destruct demo; reflexivity.
Qed.

Lemma form_round_trip_witness :
  Forall App.isLine (employees Scenario.demo2) /\
  Forall App.isLine (lunchMenu Scenario.demo2) /\
  App.submittedInput (fst (App.loadDemo Scenario.demo2))
    (snd (App.loadDemo Scenario.demo2)) = Scenario.demo2.
Proof.
  assert (He : Forall App.isLine (employees Scenario.demo2))
    by (repeat constructor; vm_compute; reflexivity).
  assert (Hm : Forall App.isLine (lunchMenu Scenario.demo2))
    by (repeat constructor; vm_compute; reflexivity).
  split; [exact He|]. split; [exact Hm|].
  exact (form_round_trip Scenario.demo2 He Hm).
Defined.

Lemma submitted_lines (text : string) :
  Forall App.isLine
    (List.filter (fun e => negb (JS.isEmpty (JS.trim e))) (App.split text App.newline)).
Proof.
  apply Forall_forall. intros x Hx. apply elem_of_filter_bool in Hx.
  destruct Hx as [Hx Hne]. split.
  - pose proof (split_no_newline text) as H. rewrite Forall_forall in H. apply H, Hx.
  - apply negb_true_iff. exact Hne.
Qed.

(** X19. Whatever is typed into the form, every employee and every menu
    item that [handleSubmit] sends is a single non-blank line, and the
    server answers the request with the status 200 and the result of the
    pipeline, in every world and configuration. *)
Theorem form_submission_accepted
    (toString : number -> string) (w : World) (env : Env)
    (employeesText lunchMenuText : string) :
  let input := App.submittedInput employeesText lunchMenuText in
  Forall App.isLine (employees input) /\
  Forall App.isLine (lunchMenu input) /\
  handleRun toString w env (Some (App.bodyOf input)) =
    Status200 (runPipeline toString w env input).
Proof.
  intros input. subst input.
  split; [apply submitted_lines|]. split; [apply submitted_lines|].
  unfold handleRun, runPipelineOn, App.bodyOf.
  cbn [body_employees body_lunchMenu isFalsy isArray itemsOf orb negb].
  rewrite !asStrings_strings. cbn [bind].
  destruct (App.submittedInput employeesText lunchMenuText); reflexivity.
Qed.

(** ** The HR step without a ceiling *)

(** The loop is still running after [fuel] iterations exactly when the
    status it starts from and the next [fuel] status calls all show the run
    queued or in progress. *)
Lemma basic_pollLoop_None (w : World) (fuel : nat) :
  forall (s : RunStatus) (calls : nat),
    Basic.pollLoop w fuel s calls = None <->
    isPending s = true /\
    forall i, (calls < i <= calls + fuel)%nat ->
      exists status, runs_get w i = Returned status /\ isPending status = true.
Proof.
  induction fuel as [|fuel IH]; intros s calls; cbn [Basic.pollLoop].
  - destruct (isPending s); split.
    + intros _. split; [reflexivity|]. intros i Hi. lia.
    + reflexivity.
    + discriminate.
    + intros [H _]. discriminate H.
  - destruct (isPending s).
    2:{ split; [discriminate|]. intros [H _]. discriminate H. }
    destruct (runs_get w (S calls)) as [s'|] eqn:Hget.
    + rewrite IH. split.
      * intros [Hs' Hrest]. split; [reflexivity|].
        intros i Hi. destruct (Nat.eq_dec i (S calls)) as [->|Hne].
        -- exists s'. split; assumption.
        -- apply Hrest. lia.
      * intros [_ Hall]. split.
        -- destruct (Hall (S calls)) as (st & Hst & Hp); [lia|].
           rewrite Hget in Hst. injection Hst as ->. exact Hp.
        -- intros i Hi. apply Hall. lia.
    + split; [discriminate|].
      intros [_ Hall]. destruct (Hall (S calls)) as (st & Hst & _); [lia|].
      rewrite Hget in Hst. discriminate Hst.
Qed.

(** More fuel does not change what the loop has returned. *)
Lemma basic_pollLoop_mono (w : World) (fuel : nat) :
  forall (fuel' : nat) (s : RunStatus) (calls : nat) (o : Outcome RunStatus),
    Basic.pollLoop w fuel s calls = Some o ->
    (fuel <= fuel')%nat ->
    Basic.pollLoop w fuel' s calls = Some o.
Proof.
  induction fuel as [|fuel IH]; intros fuel' s calls o; cbn [Basic.pollLoop].
  - destruct (isPending s) eqn:Hp; [discriminate|].
    intros H _. destruct fuel'; cbn [Basic.pollLoop]; rewrite Hp; exact H.
  - destruct (isPending s) eqn:Hp.
    + intros H Hle. destruct fuel' as [|fuel']; [lia|].
      cbn [Basic.pollLoop]. rewrite Hp.
      destruct (runs_get w (S calls)) as [s'|]; [|exact H].
      apply IH; [exact H | lia].
    + intros H _. destruct fuel'; cbn [Basic.pollLoop]; rewrite Hp; exact H.
Qed.

(** A loop that has returned has returned a settled status. *)
Lemma basic_pollLoop_settled (w : World) (fuel : nat) :
  forall (s : RunStatus) (calls : nat) (status : RunStatus),
    Basic.pollLoop w fuel s calls = Some (Returned status) ->
    isPending status = false.
Proof.
  induction fuel as [|fuel IH]; intros s calls status; cbn [Basic.pollLoop].
  - destruct (isPending s) eqn:Hp; [discriminate|].
    intros [= <-]. exact Hp.
  - destruct (isPending s) eqn:Hp.
    + destruct (runs_get w (S calls)) as [s'|]; [apply IH | discriminate].
    + intros [= <-]. exact Hp.
Qed.

Lemma basic_submit_submitted (w : World) (t r : string) :
  Basic.submitted w t r ->
  Basic.submit w = let* runStatus := runs_get w 0 in Returned (t, r, runStatus).
Proof.
  intros (_ & _ & Hn & Hc & Ht & Hm & Hr).
  unfold Basic.submit. rewrite Hn, Hc, Ht, Hm, Hr. reflexivity.
Qed.

Lemma basic_hrStepTry_submitted
    (w : World) (input : PipelineInput) (fuel : nat) (t r : string) :
  Basic.submitted w t r ->
  Basic.hrStepTry w input fuel =
    match runs_get w 0 with
    | Thrown => Some Thrown
    | Returned runStatus =>
        match Basic.pollLoop w fuel runStatus 0 with
        | None => None
        | Some Thrown => Some Thrown
        | Some (Returned _) =>
            Some (let* messages := messages_list w in
                  Returned (Basic.advisoryResult input (Basic.responseText messages) t r))
        end
    end.
Proof.
  intros Hsub. unfold Basic.hrStepTry.
  rewrite (basic_submit_submitted w t r Hsub).
  destruct Hsub as (He & Ha & _). rewrite He, Ha. cbn [negb orb].
  destruct (runs_get w 0); reflexivity.
Qed.

Lemma basic_hrStep_None (w : World) (input : PipelineInput) (fuel : nat) :
  Basic.hrStep w input fuel = None <-> Basic.hrStepTry w input fuel = None.
Proof.
  unfold Basic.hrStep.
  destruct (Basic.hrStepTry w input fuel) as [[result|]|]; split;
    try discriminate; reflexivity.
Qed.

Lemma basic_hrStep_waiting
    (w : World) (input : PipelineInput) (fuel : nat) (t r : string) :
  Basic.submitted w t r ->
  (Basic.hrStep w input fuel = None <-> pendingUntil w (S fuel)).
Proof.
  intros Hsub. rewrite basic_hrStep_None.
  rewrite (basic_hrStepTry_submitted w input fuel t r Hsub).
  destruct (runs_get w 0) as [s0|] eqn:H0.
  - transitivity (Basic.pollLoop w fuel s0 0 = None).
    { destruct (Basic.pollLoop w fuel s0 0) as [[s|]|]; split;
        try discriminate; reflexivity. }
    rewrite basic_pollLoop_None. split.
    + intros [Hp Hall] i Hi. destruct i as [|i].
      * exists s0. split; assumption.
      * apply Hall. lia.
    + intros Hpend. split.
      * destruct (Hpend 0%nat) as (st & Hst & Hp); [lia|].
        rewrite H0 in Hst. injection Hst as ->. exact Hp.
      * intros i Hi. apply Hpend. lia.
  - split; [discriminate|].
    intros Hpend. destruct (Hpend 0%nat) as (st & Hst & _); [lia|].
    rewrite H0 in Hst. discriminate Hst.
Qed.

Lemma basic_hrStepTry_mono
    (w : World) (input : PipelineInput) (fuel fuel' : nat) (o : Outcome HRStepResult) :
  Basic.hrStepTry w input fuel = Some o ->
  (fuel <= fuel')%nat ->
  Basic.hrStepTry w input fuel' = Some o.
Proof.
  unfold Basic.hrStepTry. intros H Hle.
  destruct (negb (truthy (AZURE_AI_PROJECT_ENDPOINT w)) ||
            negb (truthy (AZURE_AI_AGENT_ID w))); [exact H|].
  destruct (Basic.submit w) as [[[t r] s0]|]; [|exact H].
  destruct (Basic.pollLoop w fuel s0 0) as [o'|] eqn:Hloop; [|discriminate H].
  rewrite (basic_pollLoop_mono w fuel fuel' s0 0%nat o' Hloop Hle). exact H.
Qed.

Lemma basic_hrStep_mono
    (w : World) (input : PipelineInput) (fuel fuel' : nat) (result : HRStepResult) :
  Basic.hrStep w input fuel = Some result ->
  (fuel <= fuel')%nat ->
  Basic.hrStep w input fuel' = Some result.
Proof.
  unfold Basic.hrStep. intros H Hle.
  destruct (Basic.hrStepTry w input fuel) as [o|] eqn:Htry; [|discriminate H].
  rewrite (basic_hrStepTry_mono w input fuel fuel' o Htry Hle). exact H.
Qed.

(** The current step gives up on a run that never settles. *)
Lemma hrStep_never_settles (w : World) (input : PipelineInput) :
  Basic.neverSettles w -> hrStep w input = fallbackHRStep input.
Proof.
  intros Hnever.
  destruct (hrStep_advisory_or_fallback w input)
    as [(response & t & r & Hadv & _)|[_ H]]; [|exact H].
  destruct Hadv as (_ & k & status & messages & _ & Hset & _).
  pose proof (settledAt_not_pending w k (S k) status Hset (Hnever (S k))). lia.
Qed.

(** X20. The version of the HR step without a ceiling waits as long as the
    run is pending: after a successful submission it has not returned
    after [fuel] iterations of its loop exactly when the first [fuel + 1]
    status calls all show the run queued or in progress, and what it has
    returned does not change with more iterations.  For a run that never
    settles it never returns, where the current version returns the
    fallback result. *)
Theorem basic_hrStep_waits (w : World) (input : PipelineInput) (t r : string) :
  Basic.submitted w t r ->
  (forall fuel, Basic.hrStep w input fuel = None <-> pendingUntil w (S fuel)) /\
  (forall fuel fuel' result,
     Basic.hrStep w input fuel = Some result -> (fuel <= fuel')%nat ->
     Basic.hrStep w input fuel' = Some result) /\
  (Basic.neverSettles w ->
   (forall fuel, Basic.hrStep w input fuel = None) /\
   hrStep w input = fallbackHRStep input).
Proof.
  intros Hsub. split; [|split].
  - intros fuel. apply (basic_hrStep_waiting w input fuel t r Hsub).
  - intros fuel fuel' result. apply basic_hrStep_mono.
  - intros Hnever. split.
    + intros fuel. apply (basic_hrStep_waiting w input fuel t r Hsub). apply Hnever.
    + apply hrStep_never_settles. exact Hnever.
Qed.

Lemma basic_hrStep_waits_witness :
  Basic.submitted Basic.staysQueued "thread_abc123" "run_xyz789" /\
  (forall fuel, Basic.hrStep Basic.staysQueued Scenario.safeLunch fuel = None) /\
  hrStep Basic.staysQueued Scenario.safeLunch = fallbackHRStep Scenario.safeLunch.
Proof.
  assert (Hsub : Basic.submitted Basic.staysQueued "thread_abc123" "run_xyz789")
    by (repeat split; reflexivity).
  split; [exact Hsub|].
  apply (basic_hrStep_waits Basic.staysQueued Scenario.safeLunch _ _ Hsub).
  intros k i _. exists queued. split; reflexivity.
Defined.

(** *** A settled run *)

Lemma basic_pollLoop_settles (w : World) (j : nat) :
  forall (fuel : nat) (s : RunStatus) (calls : nat) (status : RunStatus),
    (forall i, (calls <= i < calls + j)%nat ->
       exists st, runs_get w i = Returned st /\ isPending st = true) ->
    runs_get w calls = Returned s ->
    runs_get w (calls + j) = Returned status ->
    isPending status = false ->
    (j <= fuel)%nat ->
    Basic.pollLoop w fuel s calls = Some (Returned status).
Proof.
  induction j as [|j IH]; intros fuel s calls status Hpend Hs Hstatus Hnp Hle.
  - rewrite Nat.add_0_r in Hstatus. rewrite Hs in Hstatus. injection Hstatus as ->.
    destruct fuel; cbn [Basic.pollLoop]; rewrite Hnp; reflexivity.
  - destruct fuel as [|fuel]; [lia|]. cbn [Basic.pollLoop].
    destruct (Hpend calls) as (st & Hst & Hp); [lia|].
    rewrite Hs in Hst. injection Hst as <-. rewrite Hp.
    destruct j as [|j].
    + rewrite Nat.add_1_r in Hstatus. rewrite Hstatus.
      apply (IH fuel status (S calls) status).
      * intros i Hi. lia.
      * exact Hstatus.
      * rewrite Nat.add_0_r. exact Hstatus.
      * exact Hnp.
      * lia.
    + destruct (Hpend (S calls)) as (s' & Hs' & Hp'); [lia|].
      rewrite Hs'.
      apply (IH fuel s' (S calls) status).
      * intros i Hi. apply Hpend. lia.
      * exact Hs'.
      * replace (S calls + S j)%nat with (calls + S (S j))%nat by lia. exact Hstatus.
      * exact Hnp.
      * lia.
Qed.

Lemma basic_hrStep_settles
    (w : World) (input : PipelineInput) (t r : string) (k : nat) (status : RunStatus)
    (fuel : nat) :
  Basic.submitted w t r ->
  settledAt w k status ->
  (k <= fuel)%nat ->
  Basic.hrStep w input fuel =
    Some match messages_list w with
         | Returned messages =>
             Basic.advisoryResult input (Basic.responseText messages) t r
         | Thrown => Basic.fallbackHRStep input
         end.
Proof.
  intros Hsub (Hpend & Hk & Hnp) Hle.
  unfold Basic.hrStep. rewrite (basic_hrStepTry_submitted w input fuel t r Hsub).
  assert (H0 : exists s0, runs_get w 0 = Returned s0).
  { destruct k as [|k]; [eauto|].
    destruct (Hpend 0%nat) as (s0 & Hs0 & _); [lia|]. eauto. }
  destruct H0 as (s0 & Hs0). rewrite Hs0.
  rewrite (basic_pollLoop_settles w k fuel s0 0%nat status); try assumption.
  - destruct (messages_list w); reflexivity.
  - intros i Hi. apply Hpend. lia.
Qed.

Lemma basic_responseText_no_assistant (messages : list ThreadMessage) :
  Forall (fun m => role m <> "assistant") messages ->
  Basic.responseText messages = "".
Proof.
  intros Hall. unfold Basic.responseText.
  destruct (List.find (fun m => String.eqb (role m) "assistant") messages) as [m|] eqn:Hfind;
    [|reflexivity].
  apply List.find_some in Hfind. destruct Hfind as [Hin Heq].
  apply String.eqb_eq in Heq.
  rewrite Forall_forall in Hall. apply list_elem_of_In in Hin.
  destruct (Hall m Hin Heq).
Qed.

(** The current step falls back on a run that failed or was cancelled. *)
Lemma hrStep_settled_failed (w : World) (input : PipelineInput) (k : nat) (status : RunStatus) :
  settledAt w k status ->
  status = failed \/ status = cancelled ->
  hrStep w input = fallbackHRStep input.
Proof.
  intros Hset Hstatus.
  destruct (hrStep_advisory_or_fallback w input)
    as [(response & t & r & Hadv & _)|[_ H]]; [|exact H].
  destruct Hadv as (_ & k' & status' & messages & _ & Hset' & Hnf & Hnc & _).
  destruct (settledAt_unique w k k' status status' Hset Hset') as [_ <-].
  destruct Hstatus; contradiction.
Qed.

(** X21. The version without a ceiling looks neither at the final status
    of the run nor for an answer.  After a successful submission, once a
    status call [k] shows the run settled, with whatever status, the step
    returns for every [fuel >= k] the result built from the messages of the
    thread, with the ids of the thread and of the run; with no assistant
    message in the thread that result is low risk with the one reason
    [Menu appears safe], whatever the menu.  The current version returns
    the fallback result for a run that failed or was cancelled. *)
Theorem basic_hrStep_ignores_status
    (w : World) (input : PipelineInput) (t r : string) (k : nat) (status : RunStatus)
    (messages : list ThreadMessage) :
  Basic.submitted w t r ->
  settledAt w k status ->
  messages_list w = Returned messages ->
  (forall fuel, (k <= fuel)%nat ->
     Basic.hrStep w input fuel =
       Some (Basic.advisoryResult input (Basic.responseText messages) t r)) /\
  (Forall (fun m => role m <> "assistant") messages ->
   forall fuel, (k <= fuel)%nat ->
     exists result,
       Basic.hrStep w input fuel = Some result /\
       riskLevel result = low /\
       reasons result = [Basic.safeReason] /\
       threadId result = Some t /\ runId result = Some r) /\
  (status = failed \/ status = cancelled ->
   hrStep w input = fallbackHRStep input).
Proof.
  intros Hsub Hset Hmsg.
  assert (Hret : forall fuel, (k <= fuel)%nat ->
            Basic.hrStep w input fuel =
              Some (Basic.advisoryResult input (Basic.responseText messages) t r)).
  { intros fuel Hle.
    rewrite (basic_hrStep_settles w input t r k status fuel Hsub Hset Hle).
    rewrite Hmsg. reflexivity. }
  split; [exact Hret|]. split.
  - intros Hnone fuel Hle. eexists. split; [apply Hret; exact Hle|].
    rewrite (basic_responseText_no_assistant messages Hnone).
    repeat split; reflexivity.
  - apply hrStep_settled_failed with (k := k). exact Hset.
Qed.

Lemma basic_hrStep_ignores_status_witness :
  Basic.submitted Basic.failsAtOnce "thread_abc123" "run_xyz789" /\
  settledAt Basic.failsAtOnce 0 failed /\
  messages_list Basic.failsAtOnce = Returned [] /\
  Basic.hrStep Basic.failsAtOnce Scenario.riskyLunch 0 =
    Some (Basic.advisoryResult Scenario.riskyLunch "" "thread_abc123" "run_xyz789") /\
  hrStep Basic.failsAtOnce Scenario.riskyLunch = fallbackHRStep Scenario.riskyLunch.
Proof.
  assert (Hsub : Basic.submitted Basic.failsAtOnce "thread_abc123" "run_xyz789")
    by (repeat split; reflexivity).
  assert (Hset : settledAt Basic.failsAtOnce 0 failed).
  { split; [intros i Hi; lia | split; reflexivity]. }
  assert (Hmsg : messages_list Basic.failsAtOnce = Returned []) by reflexivity.
  destruct (basic_hrStep_ignores_status Basic.failsAtOnce Scenario.riskyLunch
              _ _ 0%nat failed [] Hsub Hset Hmsg) as (Hret & _ & Hcur).
  split; [exact Hsub|]. split; [exact Hset|]. split; [exact Hmsg|].
  split; [apply (Hret 0%nat); lia | apply Hcur; left; reflexivity].
Defined.
(** *** The menus of the two versions *)

Lemma basic_hrStep_cases
    (w : World) (input : PipelineInput) (fuel : nat) (result : HRStepResult) :
  Basic.hrStep w input fuel = Some result ->
  result = Basic.fallbackHRStep input \/
  exists response t r, result = Basic.advisoryResult input response t r.
Proof.
  unfold Basic.hrStep, Basic.hrStepTry.
  destruct (negb (truthy (AZURE_AI_PROJECT_ENDPOINT w)) ||
            negb (truthy (AZURE_AI_AGENT_ID w))).
  { intros [= <-]. left. reflexivity. }
  destruct (Basic.submit w) as [[[t r] s0]|].
  2:{ intros [= <-]. left. reflexivity. }
  destruct (Basic.pollLoop w fuel s0 0) as [[s|]|].
  - destruct (messages_list w) as [messages|]; cbn [bind]; intros [= <-].
    + right. eauto.
    + left. reflexivity.
  - intros [= <-]. left. reflexivity.
  - discriminate.
Qed.

Lemma filter_weaken_sublist {A} (f g : A -> bool) (l : list A) :
  (forall x, f x = true -> g x = true) ->
  List.filter f l `sublist_of` List.filter g l.
Proof.
  intros Hfg. induction l as [|x l IH]; simpl; [constructor|].
  destruct (f x) eqn:Hf.
  - rewrite (Hfg x Hf). apply sublist_skip. exact IH.
  - destruct (g x); [apply sublist_cons|]; exact IH.
Qed.

Lemma mentionsAny_false_cons (keyword : string) (keywords : list string) (item : string) :
  mentionsAny (keyword :: keywords) item = false <->
  JS.includes (JS.toLowerCase item) keyword = false /\ mentionsAny keywords item = false.
Proof. unfold mentionsAny, JS.some. cbn [existsb]. apply orb_false_iff. Qed.

Lemma stays_no_major_allergen (item : string) :
  Spec.stays item = true ->
  JS.includes (JS.toLowerCase item) "peanut" = false /\
  JS.includes (JS.toLowerCase item) "shellfish" = false.
Proof.
  intros H. destruct (stays_clean item H) as (_ & _ & Hall).
  unfold containsMajorAllergens, JS.some in Hall. cbn [existsb] in Hall.
  apply orb_false_iff in Hall. destruct Hall as [Hp Hall].
  apply orb_false_iff in Hall. destruct Hall as [Hs _]. auto.
Qed.

(** X22. What the version without a ceiling returns as the sanitized menu,
    whenever it returns: a sublist of the raw menu that contains the menu
    sanitized by the current policy rules, without an item that contains
    peanut, and on the fallback path (no thread id) without one that
    contains shellfish.  Nothing else is ever removed: every raw item that
    contains neither of the two is kept, a tobacco product included. *)
Theorem basic_sanitized_menus
    (w : World) (input : PipelineInput) (fuel : nat) (result : HRStepResult) :
  Basic.hrStep w input fuel = Some result ->
  fst (sanitizeMenuBasedOnPolicy (lunchMenu input)) `sublist_of` sanitizedMenu result /\
  sanitizedMenu result `sublist_of` lunchMenu input /\
  Forall (fun item => mentionsAny ["peanut"] item = false) (sanitizedMenu result) /\
  (threadId result = None ->
   Forall (fun item => mentionsAny ["peanut"; "shellfish"] item = false)
     (sanitizedMenu result)) /\
  Forall (fun item =>
            mentionsAny ["peanut"; "shellfish"] item = false ->
            item ∈ sanitizedMenu result)
    (lunchMenu input).
Proof.
  intros Hret. rewrite sanitize_eq. cbn [fst].
  destruct (basic_hrStep_cases w input fuel result Hret)
    as [->|(response & t & r & ->)]; cbn [Basic.fallbackHRStep Basic.advisoryResult
                                          sanitizedMenu threadId].
  - unfold Basic.fallbackHRStep.
    destruct (if (0 <? _)%nat then _ else _) as [risks1 level1].
    destruct (if (2 <? _)%nat then _ else _) as [risks2 level2].
    cbn [sanitizedMenu threadId].
    split; [|split; [|split; [|split]]].
    + apply filter_weaken_sublist. intros item Hs.
      destruct (stays_no_major_allergen item Hs) as [-> ->]. reflexivity.
    + apply filter_sublist.
    + apply Forall_forall. intros item Hin.
      apply elem_of_filter_bool in Hin. destruct Hin as [_ Hin].
      apply andb_true_iff in Hin. destruct Hin as [Hp _].
      apply mentionsAny_false_cons. split; [|reflexivity].
      apply negb_true_iff. exact Hp.
    + intros _. apply Forall_forall. intros item Hin.
      apply elem_of_filter_bool in Hin. destruct Hin as [_ Hin].
      apply andb_true_iff in Hin. destruct Hin as [Hp Hs].
      apply mentionsAny_false_cons. split; [apply negb_true_iff; exact Hp|].
      apply mentionsAny_false_cons. split; [apply negb_true_iff; exact Hs|reflexivity].
    + apply Forall_forall. intros item Hin Hno.
      apply mentionsAny_false_cons in Hno. destruct Hno as [Hp Hno].
      apply mentionsAny_false_cons in Hno. destruct Hno as [Hs _].
      apply elem_of_filter_bool. split; [exact Hin|].
      rewrite Hp, Hs. reflexivity.
  - split; [|split; [|split; [|split]]].
    + apply filter_weaken_sublist. intros item Hs.
      destruct (stays_no_major_allergen item Hs) as [-> _]. reflexivity.
    + apply filter_sublist.
    + apply Forall_forall. intros item Hin.
      apply elem_of_filter_bool in Hin. destruct Hin as [_ Hp].
      apply mentionsAny_false_cons. split; [|reflexivity].
      apply negb_true_iff. exact Hp.
    + discriminate.
    + apply Forall_forall. intros item Hin Hno.
      apply mentionsAny_false_cons in Hno. destruct Hno as [Hp _].
      apply elem_of_filter_bool. split; [exact Hin|].
      rewrite Hp. reflexivity.
Qed.

Lemma basic_sanitized_menus_witness :
  let result :=
    Basic.advisoryResult Scenario.riskyLunch "" "thread_abc123" "run_xyz789" in
  Basic.hrStep Basic.failsAtOnce Scenario.riskyLunch 0 = Some result /\
  fst (sanitizeMenuBasedOnPolicy (lunchMenu Scenario.riskyLunch))
    `sublist_of` sanitizedMenu result /\
  sanitizedMenu result `sublist_of` lunchMenu Scenario.riskyLunch /\
  Forall (fun item => mentionsAny ["peanut"] item = false) (sanitizedMenu result) /\
  (threadId result = None ->
   Forall (fun item => mentionsAny ["peanut"; "shellfish"] item = false)
     (sanitizedMenu result)) /\
  Forall (fun item =>
            mentionsAny ["peanut"; "shellfish"] item = false ->
            item ∈ sanitizedMenu result)
    (lunchMenu Scenario.riskyLunch).
Proof.
  intros result. split; [reflexivity|].
  apply (basic_sanitized_menus Basic.failsAtOnce Scenario.riskyLunch 0 result).
  reflexivity.
Defined.

(** *** The rules of the version without a ceiling *)

Lemma some_map {A B} (f : B -> bool) (g : A -> B) (l : list A) :
  JS.some f (List.map g l) = JS.some (fun x => f (g x)) l.
Proof.
  unfold JS.some. induction l as [|x l IH]; simpl; [reflexivity|].
  rewrite IH. reflexivity.
Qed.

Lemma filter_nil_iff {A} (f : A -> bool) (l : list A) :
  List.filter f l = [] <-> forall x, x ∈ l -> f x = false.
Proof.
  induction l as [|x l IH]; simpl.
  - split; [|reflexivity]. intros _ y Hy. inversion Hy.
  - destruct (f x) eqn:Hf.
    + split; [discriminate|]. intros H.
      rewrite (H x) in Hf; [discriminate|]. apply elem_of_cons. left. reflexivity.
    + rewrite IH. split.
      * intros H y Hy. apply elem_of_cons in Hy. destruct Hy as [->|Hy]; auto.
      * intros H y Hy. apply H. apply elem_of_cons. right. exact Hy.
Qed.

Lemma filter_full_iff {A} (f : A -> bool) (l : list A) :
  length (List.filter f l) = length l <-> forall x, x ∈ l -> f x = true.
Proof.
  induction l as [|x l IH]; simpl.
  - split; [|reflexivity]. intros _ y Hy. inversion Hy.
  - pose proof (sublist_length _ _ (filter_sublist f l)) as Hle.
    destruct (f x) eqn:Hf; simpl.
    + split.
      * intros H y Hy. apply elem_of_cons in Hy. destruct Hy as [->|Hy]; [exact Hf|].
        apply IH; [lia | exact Hy].
      * intros H. f_equal. apply IH. intros y Hy. apply H.
        apply elem_of_cons. right. exact Hy.
    + split; [lia|]. intros H.
      rewrite (H x) in Hf; [discriminate|]. apply elem_of_cons. left. reflexivity.
Qed.

(** The fields of the fallback result, read off its two updates. *)
Lemma basic_fallback_fields (input : PipelineInput) :
  let occurs term :=
    JS.some (fun item => JS.includes (JS.toLowerCase item) term) (lunchMenu input) in
  let foundAllergens := List.filter occurs Basic.allergens in
  let foundUnhealthy := List.filter occurs Basic.unhealthy in
  riskLevel (Basic.fallbackHRStep input) =
    (if (0 <? length foundAllergens)%nat then
       if (2 <? length foundAllergens)%nat then high else medium
     else if (2 <? length foundUnhealthy)%nat then medium else low) /\
  reasons (Basic.fallbackHRStep input) =
    Basic.orSafe
      ((if (0 <? length foundAllergens)%nat
        then ["Contains allergens: " +:+ JS.join ", " foundAllergens] else []) ++
       (if (2 <? length foundUnhealthy)%nat
        then ["Multiple unhealthy items detected"] else [])).
Proof.
  intros occurs foundAllergens foundUnhealthy.
  assert (HA : List.filter
                 (fun allergen =>
                    JS.some (fun item => JS.includes item allergen)
                      (List.map JS.toLowerCase (lunchMenu input)))
                 Basic.allergens = foundAllergens).
  { apply List.filter_ext. intros a. apply some_map. }
  assert (HU : List.filter
                 (fun term =>
                    JS.some (fun item => JS.includes item term)
                      (List.map JS.toLowerCase (lunchMenu input)))
                 Basic.unhealthy = foundUnhealthy).
  { apply List.filter_ext. intros a. apply some_map. }
  unfold Basic.fallbackHRStep. cbv zeta. rewrite HA, HU.
  destruct (0 <? length foundAllergens)%nat;
    destruct (2 <? length foundAllergens)%nat;
    destruct (2 <? length foundUnhealthy)%nat; split; reflexivity.
Qed.

(** X23. The rules of the version without a ceiling, on the raw menu.  The
    risk is high exactly when more than two of the six allergen words occur
    in the menu; it is low exactly when none of them occurs and one of the
    three words for unhealthy items does not occur either, and exactly then
    the only reason is [Menu appears safe].  Unhealthy items are reported
    exactly when all three words occur. *)
Theorem basic_fallback_classification (input : PipelineInput) :
  let result := Basic.fallbackHRStep input in
  let occurs term :=
    JS.some (fun item => JS.includes (JS.toLowerCase item) term) (lunchMenu input) in
  (riskLevel result = high <->
   (2 < length (List.filter occurs Basic.allergens))%nat) /\
  (riskLevel result = low <->
   (forall allergen, allergen ∈ Basic.allergens -> occurs allergen = false) /\
   exists term, term ∈ Basic.unhealthy /\ occurs term = false) /\
  (riskLevel result = low <-> reasons result = [Basic.safeReason]) /\
  ("Multiple unhealthy items detected" ∈ reasons result <->
   forall term, term ∈ Basic.unhealthy -> occurs term = true).
Proof.
  intros result occurs.
  destruct (basic_fallback_fields input) as [Hrisk Hreasons].
  fold occurs in Hrisk, Hreasons. fold result in Hrisk, Hreasons.
  rewrite Hrisk, Hreasons. clear Hrisk Hreasons.
  pose proof (filter_nil_iff occurs Basic.allergens) as HnoA.
  pose proof (filter_full_iff occurs Basic.unhealthy) as HallU.
  pose proof (sublist_length _ _ (filter_sublist occurs Basic.unhealthy)) as HleU.
  change (length Basic.unhealthy) with 3%nat in HallU, HleU.
  assert (HsomeU : (exists term, term ∈ Basic.unhealthy /\ occurs term = false) <->
                   ~ (forall term, term ∈ Basic.unhealthy -> occurs term = true)).
  { split.
    - intros (term & Hin & Hf) Hall. rewrite (Hall term Hin) in Hf. discriminate Hf.
    - intros Hnot.
      destruct (occurs "fried") eqn:H1;
        [|exists "fried"; split; [repeat constructor | exact H1]].
      destruct (occurs "processed") eqn:H2;
        [|exists "processed"; split; [repeat constructor | exact H2]].
      destruct (occurs "high-sodium") eqn:H3;
        [|exists "high-sodium"; split; [repeat constructor | exact H3]].
      destruct Hnot. intros term Hin.
      repeat (apply elem_of_cons in Hin; destruct Hin as [->|Hin]; [assumption|]).
      inversion Hin. }
  rewrite HsomeU, <- HallU, <- HnoA.
  generalize dependent (List.filter occurs Basic.unhealthy).
  generalize (List.filter occurs Basic.allergens).
  intros la lu _ HleU. clear HnoA HsomeU.
  destruct (0 <? length la)%nat eqn:H0; [apply Nat.ltb_lt in H0|apply Nat.ltb_ge in H0];
    (destruct (2 <? length la)%nat eqn:H2; [apply Nat.ltb_lt in H2|apply Nat.ltb_ge in H2]);
    (destruct (2 <? length lu)%nat eqn:H3; [apply Nat.ltb_lt in H3|apply Nat.ltb_ge in H3]);
    try lia.
  all: assert (Hla : la = [] <-> length la = 0%nat)
         by (destruct la; simpl; split; (discriminate || reflexivity || lia)).
  all: unfold Basic.orSafe; cbn [app length Nat.ltb Nat.leb].
  all: repeat split; try discriminate; try lia; try tauto.
  all: try (intros H; apply list_elem_of_In in H; cbn [In] in H; intuition discriminate).
  all: try (intros; apply list_elem_of_In; cbn [In]; tauto).
  all: try (intros [H _]; apply Hla in H; lia).
  all: try (intros [_ H]; lia).
  all: apply Hla; lia.
Qed.
(** ** The message of the manager *)

Lemma prefix_refl (s : string) : String.prefix s s = true.
Proof.
  induction s as [|c s IH]; [reflexivity|].
  simpl. destruct (ascii_dec c c); [exact IH | congruence].
Qed.

Lemma includes_refl (s : string) : JS.includes s s = true.
Proof.
  destruct s as [|c s]; [reflexivity|].
  cbn [JS.includes]. rewrite prefix_refl. reflexivity.
Qed.

(** Every element of an array occurs in its [join]. *)
Lemma includes_join_elem (sep : string) (l : list string) (x : string) :
  x ∈ l -> JS.includes (JS.join sep l) x = true.
Proof.
  induction l as [|y l IH]; intros Hin; [inversion Hin|].
  apply elem_of_cons in Hin.
  destruct l as [|z l].
  - destruct Hin as [->|Hin]; [apply includes_refl | inversion Hin].
  - change (JS.join sep (y :: z :: l)) with (y +:+ sep +:+ JS.join sep (z :: l)).
    destruct Hin as [->|Hin].
    + apply includes_app_r, includes_refl.
    + apply includes_app_l, includes_app_l, IH, Hin.
Qed.

(** X24. The message of the manager tells the decision: it starts with
    BLOCKED exactly when the order is rejected and with APPROVED exactly
    when it is approved.  A rejection for high risk and an approval with
    caution quote every reason of the HR step; a rejection for the budget
    and a full approval quote the total cost and the budget. *)
Theorem managerStep_message
    (toString : number -> string) (hrResult : HRStepResult)
    (financeResult : FinanceStepResult) :
  let result := managerStep toString hrResult financeResult in
  (approved result = false <-> String.prefix "BLOCKED" (message result) = true) /\
  (approved result = true <-> String.prefix "APPROVED" (message result) = true) /\
  (riskLevel hrResult = high \/
   (riskLevel hrResult = medium /\ withinBudget financeResult = true) ->
   Forall (fun reason => JS.includes (message result) reason = true)
     (reasons hrResult)) /\
  (riskLevel hrResult <> high ->
   withinBudget financeResult = false \/ riskLevel hrResult = low ->
   JS.includes (message result) (toString (totalCost financeResult)) = true /\
   JS.includes (message result) (toString (budget financeResult)) = true).
Proof.
  intros result. subst result. unfold managerStep.
  destruct (riskLevel hrResult) eqn:Hrisk, (withinBudget financeResult) eqn:Hin;
    cbn [negb approved message].
  all: split; [split; [intros H; try discriminate H; reflexivity
                      |intros H; try discriminate H; reflexivity]|].
  all: split; [split; [intros H; try discriminate H; reflexivity
                      |intros H; try discriminate H; reflexivity]|].
  all: split.
  all: try (intros [H|[H _]]; discriminate H).
  all: try (intros [H|[_ H]]; discriminate H).
  all: try (intros Hne; contradiction Hne; reflexivity).
  all: try (intros _ [H|H]; discriminate H).
  all: try (intros _; apply Forall_forall; intros reason Hr).
  all: try (apply includes_app_l; apply includes_join_elem; exact Hr).
  all: try (apply includes_app_l; apply includes_app_r;
            apply includes_join_elem; exact Hr).
  all: intros _ _; split.
  all: try (apply includes_app_l; apply includes_app_r; apply includes_refl).
  all: apply includes_app_l; apply includes_app_l; apply includes_app_l;
       apply includes_refl.
Qed.
